(** * StreamableMCPGateway: a shallow embedding of gateway.ts

    The gateway bridges HTTP (POST + SSE) clients to a child process that
    speaks newline-delimited JSON-RPC on its standard streams.  The class is
    event driven and single threaded: every handler runs to completion, so
    each handler is a function from the gateway state to the next state and
    the list of effects it performed, and the event loop is a step function.

    Session objects are shared between the session store, the stream and
    process listeners and the timers, so they live in a heap and are named by
    reference.  Logging calls are left out. *)

From stdpp Require Import gmap list.
From Stdlib Require Import ZArith NArith Ascii String DecimalString.
From Stdlib.Strings Require Import Byte.

Open Scope Z_scope.

(** ** JavaScript strings

    A string is the sequence of its Unicode code points.  Nothing below
    depends on the UTF-16 length of a character outside the basic plane. *)

Definition jsstring := list N.

Definition js (s : string) : jsstring :=
  map N_of_ascii (list_ascii_of_string s).
Arguments js : simpl never.

Definition LF : N := 10%N.
Definition REPLACEMENT : N := 65533%N.   (* U+FFFD *)

(** A string is truthy when it is not empty ([a || b], [if (s)]). *)
Definition truthy (s : jsstring) : bool :=
  match s with [] => false | _ :: _ => true end.

(** ** Buffer.prototype.toString(): UTF-8 decoding of one chunk

    The decoder of the WHATWG Encoding Standard: each maximal ill-formed
    byte sequence is replaced by U+FFFD, and a sequence cut short by the end
    of the buffer is ill formed. *)

Record utf8_state := {
  u_needed : nat;      (* continuation bytes still expected *)
  u_code : N;          (* code point accumulated so far *)
  u_lower : N;         (* admissible range of the next continuation byte *)
  u_upper : N }.

Definition utf8_init : utf8_state :=
  {| u_needed := 0; u_code := 0%N; u_lower := 128%N; u_upper := 191%N |}.

Definition between (lo hi b : N) : bool := ((lo <=? b) && (b <=? hi))%N.

(** A byte met while no sequence is open. *)
Definition utf8_lead (b : N) : list N * utf8_state :=
  if (b <=? 127)%N then ([b], utf8_init)
  else if between 194 223 b then
    ([], {| u_needed := 1; u_code := N.land b 31;
            u_lower := 128%N; u_upper := 191%N |})
  else if between 224 239 b then
    ([], {| u_needed := 2; u_code := N.land b 15;
            u_lower := if (b =? 224)%N then 160%N else 128%N;
            u_upper := if (b =? 237)%N then 159%N else 191%N |})
  else if between 240 244 b then
    ([], {| u_needed := 3; u_code := N.land b 7;
            u_lower := if (b =? 240)%N then 144%N else 128%N;
            u_upper := if (b =? 244)%N then 143%N else 191%N |})
  else ([REPLACEMENT], utf8_init).

Definition utf8_step (st : utf8_state) (b : N) : list N * utf8_state :=
  match u_needed st with
  | O => utf8_lead b
  | S k =>
      if between (u_lower st) (u_upper st) b then
        let cp := N.lor (N.shiftl (u_code st) 6) (N.land b 63) in
        match k with
        | O => ([cp], utf8_init)
        | S _ => ([], {| u_needed := k; u_code := cp;
                         u_lower := 128%N; u_upper := 191%N |})
        end
      else
        (* the open sequence is ill formed; the byte is read again *)
        let '(out, st') := utf8_lead b in (REPLACEMENT :: out, st')
  end.

Fixpoint utf8_run (st : utf8_state) (bs : list byte) : jsstring :=
  match bs with
  | [] => match u_needed st with O => [] | S _ => [REPLACEMENT] end
  | b :: bs' =>
      let '(out, st') := utf8_step st (Byte.to_N b) in
      out ++ utf8_run st' bs'
  end.

(** [data.toString()] for [data : Buffer]. *)
Definition toString (data : list byte) : jsstring := utf8_run utf8_init data.

(** The UTF-8 bytes of an ASCII literal. *)
Definition bytes_of (s : string) : list byte := list_byte_of_string s.

(** ** String.prototype.split('\n'), Array.prototype.pop, String.prototype.trim *)

Fixpoint split (sep : N) (s : jsstring) : list jsstring :=
  match s with
  | [] => [[]]
  | c :: s' =>
      if (c =? sep)%N then [] :: split sep s'
      else match split sep s' with
           | [] => [[c]]
           | l :: ls => (c :: l) :: ls
           end
  end.

(** [lines.pop()] removes the last element and returns it. *)
Definition pop {A} (l : list A) : option A * list A :=
  (last l, removelast l).

(** [x || ''] for [x] a string or undefined. *)
Definition or_empty (x : option jsstring) : jsstring :=
  match x with
  | Some s => if truthy s then s else []
  | None => []
  end.

(** WhiteSpace and LineTerminator code points, which [trim] strips. *)
Definition is_space (c : N) : bool :=
  (between 9 13 c || (c =? 32) || (c =? 160) || (c =? 5760)
   || between 8192 8202 c || (c =? 8232) || (c =? 8233) || (c =? 8239)
   || (c =? 8287) || (c =? 12288) || (c =? 65279))%N.

Fixpoint trimStart (s : jsstring) : jsstring :=
  match s with
  | c :: s' => if is_space c then trimStart s' else s
  | [] => []
  end.

Definition trim (s : jsstring) : jsstring :=
  rev (trimStart (rev (trimStart s))).

(** ** Data model (interfaces JSONRPCMessage and Session) *)

(** [id?: string | number].  Map keys compare by value. *)
Inductive RpcId :=
| IdStr (s : jsstring)
| IdNum (n : Z).

#[global] Instance RpcId_eq_dec : EqDecision RpcId.
Proof. solve_decision. Defined.

#[global] Instance RpcId_countable : Countable RpcId.
Proof.
  refine (inj_countable'
            (fun i => match i with IdStr s => inl s | IdNum n => inr n end)
            (fun x => match x with inl s => IdStr s | inr n => IdNum n end) _).
  intros []; reflexivity.
Defined.

(** Values of type [any]. *)
#[warnings="-register-all"]
Inductive json :=
| JNull
| JBool (b : bool)
| JNum (n : Z)
| JStr (s : jsstring)
| JArr (items : list json)
| JObj (fields : list (jsstring * json)).

(** The field [jsonrpc: '2.0'] is constant and left implicit. *)
Record JSONRPCMessage := {
  id : option RpcId;
  method : option jsstring;
  params : option json;
  result : option json;
  error : option json }.

(** Objects of the host are named by natural numbers: an express Response
    [res] (which also names the request it answers and, for a forwarded
    request, the [resolve] function of its promise), a child process, a
    session object, a timer. *)
Record Session := {
  session_id : jsstring;                (* id *)
  process : nat;
  messageBuffer : jsstring;
  sseResponse : option nat;
  pendingRequests : gmap RpcId nat;
  connected : bool }.

(** A callback handed to [setTimeout] and the variables it closes over. *)
Record Timer := {
  t_session : nat;
  t_id : RpcId;
  t_resolve : nat;
  t_delay : Z }.

Record Gateway := {
  sessions : gmap jsstring nat;         (* this.sessions *)
  heap : gmap nat Session;              (* the session objects *)
  timers : gmap nat Timer;              (* timeouts that have not run yet *)
  settled : gset nat;                   (* promises already resolved *)
  closeListeners : gmap nat nat;        (* req.on('close'): res to session *)
  next : nat }.                         (* allocator of object names *)

Definition defaultSessionId : jsstring := js "default-session".

Definition new_gateway : Gateway :=
  {| sessions := ∅; heap := ∅; timers := ∅; settled := ∅;
     closeListeners := ∅; next := 0 |}.

(** What a handler sends to express: [res.status(s).json(body)]. *)
Inductive Body :=
| JsonRpc (m : JSONRPCMessage)          (* a JSON-RPC envelope *)
| EmptyObject                           (* {} *)
| ErrorObject (e : jsstring).           (* { error: e } *)

Inductive Effect :=
| Spawn (p : nat)
| StdinWrite (p : nat) (data : jsstring)
| SetHeader (res : nat) (name value : jsstring)
| SseWrite (res : nat) (data : jsstring)
| HttpReply (res : nat) (status : Z) (body : Body)
| Resolve (k : nat) (response : JSONRPCMessage)
| SetTimeout (t : nat) (delay : Z)
| Kill (p : nat).

(** The parsed request: [req.query.sessionId], [req.headers['x-session-id']],
    [req.body.sessionId] and [req.body] read as a JSONRPCMessage. *)
Record Request := {
  query_sessionId : option jsstring;
  header_sessionId : option jsstring;
  body_sessionId : option jsstring;
  body : JSONRPCMessage }.

(** ** Field updates *)

Definition set_messageBuffer (b : jsstring) (s : Session) : Session :=
  {| session_id := session_id s; process := process s; messageBuffer := b;
     sseResponse := sseResponse s; pendingRequests := pendingRequests s;
     connected := connected s |}.

Definition set_sseResponse (r : option nat) (s : Session) : Session :=
  {| session_id := session_id s; process := process s;
     messageBuffer := messageBuffer s; sseResponse := r;
     pendingRequests := pendingRequests s; connected := connected s |}.

Definition set_pendingRequests (p : gmap RpcId nat) (s : Session) : Session :=
  {| session_id := session_id s; process := process s;
     messageBuffer := messageBuffer s; sseResponse := sseResponse s;
     pendingRequests := p; connected := connected s |}.

Definition set_connected (c : bool) (s : Session) : Session :=
  {| session_id := session_id s; process := process s;
     messageBuffer := messageBuffer s; sseResponse := sseResponse s;
     pendingRequests := pendingRequests s; connected := c |}.

Definition set_sessions (m : gmap jsstring nat) (g : Gateway) : Gateway :=
  {| sessions := m; heap := heap g; timers := timers g; settled := settled g;
     closeListeners := closeListeners g; next := next g |}.

Definition set_heap (h : gmap nat Session) (g : Gateway) : Gateway :=
  {| sessions := sessions g; heap := h; timers := timers g;
     settled := settled g; closeListeners := closeListeners g;
     next := next g |}.

Definition set_timers (t : gmap nat Timer) (g : Gateway) : Gateway :=
  {| sessions := sessions g; heap := heap g; timers := t;
     settled := settled g; closeListeners := closeListeners g;
     next := next g |}.

Definition set_settled (d : gset nat) (g : Gateway) : Gateway :=
  {| sessions := sessions g; heap := heap g; timers := timers g;
     settled := d; closeListeners := closeListeners g; next := next g |}.

Definition set_closeListeners (c : gmap nat nat) (g : Gateway) : Gateway :=
  {| sessions := sessions g; heap := heap g; timers := timers g;
     settled := settled g; closeListeners := c; next := next g |}.

Definition set_next (n : nat) (g : Gateway) : Gateway :=
  {| sessions := sessions g; heap := heap g; timers := timers g;
     settled := settled g; closeListeners := closeListeners g; next := n |}.

(** ** Handlers as state transformers that log their effects *)

Definition Action := Gateway -> Gateway * list Effect.

Definition skip : Action := fun g => (g, []).

Definition emit (e : Effect) : Action := fun g => (g, [e]).

Definition update (f : Gateway -> Gateway) : Action := fun g => (f g, []).

Definition seq (a b : Action) : Action :=
  fun g => let '(g1, e1) := a g in
           let '(g2, e2) := b g1 in (g2, e1 ++ e2).

Declare Scope action_scope.
Delimit Scope action_scope with act.
Bind Scope action_scope with Action.
Notation "a ;; b" := (seq a b)
  (at level 100, b at level 200, right associativity) : action_scope.
Local Open Scope action_scope.

(** [session.field = ...] on the session object [s]. *)
Definition assign (s : nat) (f : Session -> Session) : Action :=
  update (fun g => set_heap (alter f s (heap g)) g).

(** Statements that first read the session object [s]. *)
Definition with_session (s : nat) (k : Session -> Action) : Action :=
  fun g => match heap g !! s with
           | Some session => k session g
           | None => (g, [])
           end.

(** [for (const x of l) body(x)] *)
Fixpoint for_of {A} (l : list A) (body : A -> Action) : Action :=
  match l with
  | [] => skip
  | x :: l' => body x ;; for_of l' body
  end.

(** ** The class StreamableMCPGateway

    [JSON.parse] and [JSON.stringify] belong to the host.  [JSON_parse]
    returns [None] where [JSON.parse] throws. *)

Section StreamableMCPGateway.

Variable JSON_parse : jsstring -> option JSONRPCMessage.
Variable JSON_stringify : JSONRPCMessage -> jsstring.

(** [a || b] on strings that may be undefined. *)
Definition js_or (a b : option jsstring) : option jsstring :=
  match a with
  | Some s => if truthy s then a else b
  | None => b
  end.

(** [if (!sessionId) sessionId = this.defaultSessionId] *)
Definition or_default (a : option jsstring) : jsstring :=
  match a with
  | Some s => if truthy s then s else defaultSessionId
  | None => defaultSessionId
  end.

(** The [resolve] function of the promise of the request answered on [k],
    with the code that waits on the promise: [const response = await
    responsePromise; res.json(response)].  Only the first call settles the
    promise.  The waiting code runs as a microtask, before the next event;
    its reply is logged at the call that settles the promise. *)
Definition resolve (k : nat) (response : JSONRPCMessage) : Action :=
  emit (Resolve k response) ;;
  fun g =>
    if decide (k ∈ settled g) then (g, [])
    else (set_settled ({[k]} ∪ settled g) g,
          [HttpReply k 200 (JsonRpc response)]).

(** The session object as [createSession] returns it: the literal, with
    [connected] set to true before the object is stored. *)
Definition fresh_session (sessionId : jsstring) (p : nat) : Session :=
  {| session_id := sessionId; process := p; messageBuffer := [];
     sseResponse := None; pendingRequests := ∅; connected := true |}.

(** [createSession].  [spawn_ok = false] is the case where [spawn] throws and
    the method rethrows ([None]); otherwise the new session object is
    returned.  The listeners it installs are the events [StdoutData],
    [StderrData], [ProcessError] and [ProcessExit] of the step function. *)
Definition createSession (sessionId : jsstring) (spawn_ok : bool)
    (g : Gateway) : option (nat * (Gateway * list Effect)) :=
  if spawn_ok then
    let s := next g in
    Some (s, (set_sessions (<[sessionId := s]> (sessions g))
                (set_heap (<[s := fresh_session sessionId s]> (heap g))
                   (set_next (S s) g)),
              [Spawn s]))
  else None.

(** [try { session = await this.createSession(id); ... } catch { handler }] *)
Definition try_createSession (sessionId : jsstring) (spawn_ok : bool)
    (k : nat -> Action) (handler : Action) : Action :=
  fun g =>
    match createSession sessionId spawn_ok g with
    | Some (s, (g1, e1)) => let '(g2, e2) := k s g1 in (g2, e1 ++ e2)
    | None => handler g
    end.

(** [`data: ${JSON.stringify(message)}\n\n`] *)
Definition sse_frame (message : JSONRPCMessage) : jsstring :=
  js "data: " ++ JSON_stringify message ++ [LF; LF].

Definition handleStdioMessage (s : nat) (message : JSONRPCMessage) : Action :=
  with_session s (fun session =>
    match id message with
    | Some i =>
        match pendingRequests session !! i with
        | Some callback =>
            assign s (set_pendingRequests (delete i (pendingRequests session))) ;;
            resolve callback message
        | None => skip
        end
    | None => skip
    end) ;;
  with_session s (fun session =>
    match sseResponse session with
    | Some res => emit (SseWrite res (sse_frame message))
    | None => skip
    end).

(** The body of the loop over the lines in [handleStdioData]; a parse error
    is caught and the line is skipped. *)
Definition handleLine (s : nat) (line : jsstring) : Action :=
  if truthy (trim line) then
    match JSON_parse line with
    | Some message => handleStdioMessage s message
    | None => skip
    end
  else skip.

Definition handleStdioData (s : nat) (data : list byte) : Action :=
  with_session s (fun session =>
    let buffer := messageBuffer session ++ toString data in
    let '(last_line, lines) := pop (split LF buffer) in
    assign s (set_messageBuffer (or_empty last_line)) ;;
    for_of lines (handleLine s)).

Definition sendToStdio (s : nat) (message : JSONRPCMessage) : Action :=
  with_session s (fun session =>
    emit (StdinWrite (process session) (JSON_stringify message ++ [LF]))).

(** The listener installed by [req.on('close', ...)] in [handleSSE]. *)
Definition onClose (res : nat) : Action :=
  fun g =>
    match closeListeners g !! res with
    | Some s =>
        with_session s (fun session =>
          if decide (sseResponse session = Some res)
          then assign s (set_sseResponse None)
          else skip) g
    | None => (g, [])
    end.

(** The session id of a GET: query, then header, then the default. *)
Definition sseSessionId (req : Request) : jsstring :=
  or_default (js_or (query_sessionId req) (header_sessionId req)).

(** [handleSSE] from the response headers on, for the session object [s]. *)
Definition attach (s : nat) (res : nat) : Action :=
  emit (SetHeader res (js "Content-Type") (js "text/event-stream")) ;;
  emit (SetHeader res (js "Cache-Control") (js "no-cache")) ;;
  emit (SetHeader res (js "Connection") (js "keep-alive")) ;;
  emit (SetHeader res (js "X-Accel-Buffering") (js "no")) ;;
  assign s (set_sseResponse (Some res)) ;;
  emit (SseWrite res (js ":ok" ++ [LF; LF])) ;;
  update (fun g => set_closeListeners (<[res := s]> (closeListeners g)) g).

Definition handleSSE (req : Request) (res : nat) (spawn_ok : bool) : Action :=
  fun g =>
    let sessionId := sseSessionId req in
    match sessions g !! sessionId with
    | Some s => attach s res g
    | None =>
        try_createSession sessionId spawn_ok
          (fun s =>
             update (fun g => set_sessions (<[sessionId := s]> (sessions g)) g) ;;
             attach s res)
          (emit (HttpReply res 500 (ErrorObject (js "Failed to create session"))))
          g
    end.

Definition rpc_error (message : jsstring) : json :=
  JObj [(js "code", JNum (-32603)); (js "message", JStr message)].

(** [{ jsonrpc: '2.0', id: message.id, error: { code: -32603, message:
    'Request timeout' } }] *)
Definition timeout_response (i : RpcId) : JSONRPCMessage :=
  {| id := Some i; method := None; params := None; result := None;
     error := Some (rpc_error (js "Request timeout")) |}.

(** [{ jsonrpc: '2.0', error: { code: -32603, message } }] *)
Definition error_envelope (message : jsstring) : JSONRPCMessage :=
  {| id := None; method := None; params := None; result := None;
     error := Some (rpc_error message) |}.

(** [{ jsonrpc: '2.0', id, result }] *)
Definition result_envelope (i : RpcId) (r : json) : JSONRPCMessage :=
  {| id := Some i; method := None; params := None; result := Some r;
     error := None |}.

Definition setTimeout (tm : Timer) : Action :=
  fun g =>
    let t := next g in
    (set_timers (<[t := tm]> (timers g)) (set_next (S t) g),
     [SetTimeout t (t_delay tm)]).

(** The callback of the [setTimeout] in [handleMessage], run once. *)
Definition onTimeout (t : nat) : Action :=
  fun g =>
    match timers g !! t with
    | Some tm =>
        (update (fun g => set_timers (delete t (timers g)) g) ;;
         with_session (t_session tm) (fun session =>
           match pendingRequests session !! t_id tm with
           | Some _ =>
               assign (t_session tm)
                 (set_pendingRequests (delete (t_id tm) (pendingRequests session))) ;;
               resolve (t_resolve tm) (timeout_response (t_id tm))
           | None => skip
           end)) g
    | None => (g, [])
    end.

(** The session [handleMessage] may use as it is: stored and connected. *)
Definition connected_session (sessionId : jsstring) (g : Gateway) : option nat :=
  match sessions g !! sessionId with
  | Some s =>
      match heap g !! s with
      | Some session => if connected session then Some s else None
      | None => None
      end
  | None => None
  end.

(** The session id of a POST: query, then header, then body, then the
    default. *)
Definition messageSessionId (req : Request) : jsstring :=
  or_default (js_or (js_or (query_sessionId req) (header_sessionId req))
                    (body_sessionId req)).

(** The [try] block of [handleMessage], for the session object [s]. *)
Definition processMessage (s : nat) (message : JSONRPCMessage) (res : nat)
    : Action :=
  match id message with
  | Some i =>
      if decide (method message = Some (js "logging/setLevel")) then
        emit (HttpReply res 200 (JsonRpc (result_envelope i (JObj []))))
      else if decide (method message = Some (js "resources/list")) then
        emit (HttpReply res 200
                (JsonRpc (result_envelope i (JObj [(js "resources", JArr [])]))))
      else
        assign s (fun session =>
          set_pendingRequests (<[i := res]> (pendingRequests session)) session) ;;
        sendToStdio s message ;;
        setTimeout {| t_session := s; t_id := i; t_resolve := res;
                      t_delay := 30000 |}
  | None =>
      sendToStdio s message ;;
      emit (HttpReply res 202 EmptyObject)
  end.

(** [handleMessage].  The branch [if (!session)] after the creation cannot
    be taken: [createSession] returns a session or throws. *)
Definition handleMessage (req : Request) (res : nat) (spawn_ok : bool) : Action :=
  fun g =>
    let sessionId := messageSessionId req in
    match connected_session sessionId g with
    | Some s => processMessage s (body req) res g
    | None =>
        try_createSession sessionId spawn_ok
          (fun s =>
             update (fun g => set_sessions (<[sessionId := s]> (sessions g)) g) ;;
             processMessage s (body req) res)
          (emit (HttpReply res 500
                   (JsonRpc (error_envelope (js "Failed to create session")))))
          g
    end.

(** The listeners [childProcess.on('error')] and [childProcess.on('exit')]
    installed by [createSession] for the session object [s]. *)
Definition onError (s : nat) : Action :=
  assign s (set_connected false).

Definition onExit (s : nat) : Action :=
  with_session s (fun session =>
    assign s (set_connected false) ;;
    update (fun g => set_sessions (delete (session_id session) (sessions g)) g)).

(** [close()].  The processes are killed in the order in which the map
    enumerates them. *)
Definition close : Action :=
  fun g =>
    (for_of (map snd (map_to_list (sessions g))) (fun s =>
       with_session s (fun session => emit (Kill (process session)))) ;;
     update (set_sessions ∅)) g.

(** ** The event loop *)

Inductive Event :=
| GET (req : Request) (res : nat) (spawn_ok : bool)     (* app.get('/mcp') *)
| POST (req : Request) (res : nat) (spawn_ok : bool)    (* app.post('/mcp') *)
| RequestClose (res : nat)
| StdoutData (s : nat) (data : list byte)
| StderrData (s : nat) (data : list byte)
| ProcessError (s : nat)
| ProcessExit (s : nat)
| TimerFires (t : nat)
| Shutdown.

Definition step (ev : Event) : Action :=
  match ev with
  | GET req res spawn_ok => handleSSE req res spawn_ok
  | POST req res spawn_ok => handleMessage req res spawn_ok
  | RequestClose res => onClose res
  | StdoutData s data => handleStdioData s data
  | StderrData _ _ => skip
  | ProcessError s => onError s
  | ProcessExit s => onExit s
  | TimerFires t => onTimeout t
  | Shutdown => close
  end.

Definition run (evs : list Event) : Action := for_of evs step.

End StreamableMCPGateway.

(** ** index.ts: the arguments of the backend command

    [args: process.env.MCP_ARGS ? process.env.MCP_ARGS.split(',') : []],
    where the variable is undefined when it is not set. *)

Definition COMMA : N := 44%N.

Definition mcp_args (MCP_ARGS : option jsstring) : list jsstring :=
  match MCP_ARGS with
  | Some s => if truthy s then split COMMA s else []
  | None => []
  end.

(** * Properties *)

(** Unfolding of the combinators, and the fields of an updated state. *)
Ltac unfold_action :=
  cbv [seq assign update resolve emit skip with_session];
  cbn [fst snd heap sessions timers settled closeListeners next
       set_heap set_sessions set_timers set_settled set_closeListeners
       set_next].

(** ** Lists and maps *)

Section SplitFacts.
Variable sep : N.

Lemma split_not_nil (s : jsstring) : split sep s <> [].
Proof.
  destruct s as [|c s]; simpl; [discriminate|].
  destruct (c =? sep)%N; [discriminate|].
  destruct (split sep s); discriminate.
Qed.

Lemma split_snoc (s : jsstring) :
  exists ls l, split sep s = ls ++ [l] /\ sep ∉ l.
Proof.
  induction s as [|c s (ls & l & E & Hl)]; simpl.
  - exists [], []. split; [reflexivity|]. apply not_elem_of_nil.
  - destruct (N.eqb_spec c sep) as [->|Hc].
    + exists ([] :: ls), l. rewrite E. auto.
    + rewrite E. destruct ls as [|l0 ls]; simpl.
      * exists [], (c :: l). split; [reflexivity|].
        rewrite not_elem_of_cons. auto.
      * exists ((c :: l0) :: ls), l. auto.
Qed.

Lemma split_app (a b : jsstring) ls l :
  split sep a = ls ++ [l] ->
  split sep (a ++ b) = ls ++ split sep (l ++ b).
Proof.
  revert ls l. induction a as [|c a IH]; simpl; intros ls l E.
  - destruct ls as [|x [|y ls]]; simplify_eq/=. reflexivity.
  - destruct (N.eqb_spec c sep) as [->|Hc].
    + destruct ls as [|x ls]; simpl in E.
      * exfalso. injection E as _ E. exact (split_not_nil _ E).
      * injection E as <- E. simpl. f_equal. apply IH, E.
    + destruct (split sep a) as [|l0 ls0] eqn:Ea; [destruct (split_not_nil _ Ea)|].
      destruct ls as [|x ls]; simpl in E.
      * injection E as <- ->. rewrite (IH [] l0 eq_refl). simpl.
        destruct (N.eqb_spec c sep); [contradiction|]. reflexivity.
      * injection E as <- ->. rewrite (IH (l0 :: ls) l eq_refl). reflexivity.
Qed.

(** A part without separator is a line of its own. *)
Lemma split_line (d s : jsstring) :
  sep ∉ d -> split sep (d ++ sep :: s) = d :: split sep s.
Proof.
  induction d as [|c d IH]; simpl; intros Hd.
  - rewrite N.eqb_refl. reflexivity.
  - apply not_elem_of_cons in Hd as [Hc Hd].
    destruct (N.eqb_spec c sep) as [E|_]; [congruence|].
    rewrite IH by assumption. reflexivity.
Qed.

End SplitFacts.

Lemma pop_snoc {A} (ls : list A) (l : A) : pop (ls ++ [l]) = (Some l, ls).
Proof. unfold pop. rewrite last_snoc, removelast_last. reflexivity. Qed.

Lemma or_empty_Some (l : jsstring) : or_empty (Some l) = l.
Proof. destruct l; reflexivity. Qed.

Lemma alter_Some {A} (h : gmap nat A) s x f :
  h !! s = Some x -> alter f s h = <[s := f x]> h.
Proof.
  intros E. apply map_eq. intros j. rewrite lookup_alter, lookup_insert.
  case_decide; subst; [rewrite E|]; reflexivity.
Qed.

Lemma for_of_app {A} (l1 l2 : list A) (body : A -> Action) g :
  for_of (l1 ++ l2) body g = (for_of l1 body ;; for_of l2 body) g.
Proof.
  revert g. induction l1 as [|x l1 IH]; intros g; simpl.
  - unfold seq, skip. destruct (for_of l2 body g); reflexivity.
  - unfold seq. destruct (body x g) as [g1 e1].
    rewrite IH. unfold seq. destruct (for_of l1 body g1) as [g2 e2].
    destruct (for_of l2 body g2) as [g3 e3]. rewrite app_assoc. reflexivity.
Qed.

(** ** UTF-8: a chunk that ends between two characters decodes on its own *)

Fixpoint utf8_end (st : utf8_state) (bs : list byte) : utf8_state :=
  match bs with
  | [] => st
  | b :: bs' => utf8_end (snd (utf8_step st (Byte.to_N b))) bs'
  end.

(** The chunk does not stop inside a multi-byte sequence. *)
Definition complete_chunk (c : list byte) : Prop :=
  u_needed (utf8_end utf8_init c) = 0%nat.

Definition resting (st : utf8_state) : Prop :=
  u_needed st = 0%nat -> st = utf8_init.

Lemma utf8_lead_resting b : resting (snd (utf8_lead b)).
Proof.
  unfold utf8_lead, resting.
  repeat (match goal with |- context [if ?c then _ else _] => destruct c end;
          simpl; try discriminate; try reflexivity).
Qed.

Lemma utf8_step_resting st b : resting (snd (utf8_step st b)).
Proof.
  unfold utf8_step. destruct (u_needed st) as [|[|k]].
  - apply utf8_lead_resting.
  - destruct (between _ _ _); [intros _; reflexivity|].
    pose proof (utf8_lead_resting b) as H.
    destruct (utf8_lead b); exact H.
  - destruct (between _ _ _); [intros H; discriminate H|].
    pose proof (utf8_lead_resting b) as H.
    destruct (utf8_lead b); exact H.
Qed.

Lemma utf8_end_resting st bs : resting st -> resting (utf8_end st bs).
Proof.
  revert st. induction bs as [|b bs IH]; simpl; intros st H; [exact H|].
  apply IH, utf8_step_resting.
Qed.

Lemma utf8_run_app st a b :
  u_needed (utf8_end st a) = 0%nat ->
  utf8_run st (a ++ b) = utf8_run st a ++ utf8_run (utf8_end st a) b.
Proof.
  revert st. induction a as [|x a IH]; simpl; intros st H.
  - rewrite H. reflexivity.
  - destruct (utf8_step st (Byte.to_N x)) as [out st'] eqn:E; simpl in *.
    rewrite IH by assumption. rewrite app_assoc. reflexivity.
Qed.

Lemma toString_app (a b : list byte) :
  complete_chunk a -> toString (a ++ b) = toString a ++ toString b.
Proof.
  intros H. unfold toString. rewrite utf8_run_app by exact H.
  rewrite (utf8_end_resting utf8_init a (fun _ => eq_refl) H). reflexivity.
Qed.

Lemma toString_ascii (s : list byte) :
  Forall (fun b => (Byte.to_N b < 128)%N) s ->
  toString s = map Byte.to_N s /\ complete_chunk s.
Proof.
  unfold toString, complete_chunk.
  induction 1 as [|b s Hb _ [IH1 IH2]]; simpl; [auto|].
  unfold utf8_step, utf8_lead; simpl.
  destruct (N.leb_spec (Byte.to_N b) 127) as [_|Hc]; [|lia].
  simpl. rewrite IH1. auto.
Qed.

(** ** The frame decoder *)

Section Decoder.
Variable parse : jsstring -> option JSONRPCMessage.
Variable stringify : JSONRPCMessage -> jsstring.

(** The state after [session.messageBuffer = b] on session [s]. *)
Definition with_buffer (s : nat) (b : jsstring) (g : Gateway) : Gateway :=
  set_heap (alter (set_messageBuffer b) s (heap g)) g.

(** An action that neither reads nor writes the buffer of [s]. *)
Definition keeps_buffer (s : nat) (a : Action) : Prop :=
  forall g b, a (with_buffer s b g) = (with_buffer s b (fst (a g)), snd (a g)).

Lemma keeps_buffer_skip s : keeps_buffer s skip.
Proof. intros g b. reflexivity. Qed.

Lemma keeps_buffer_seq s a1 a2 :
  keeps_buffer s a1 -> keeps_buffer s a2 -> keeps_buffer s (a1 ;; a2).
Proof.
  intros H1 H2 g b. unfold seq. rewrite H1.
  destruct (a1 g) as [g1 e1]; simpl. rewrite H2.
  destruct (a2 g1) as [g2 e2]; reflexivity.
Qed.

Lemma keeps_buffer_for_of {A} s (l : list A) body :
  (forall x, keeps_buffer s (body x)) -> keeps_buffer s (for_of l body).
Proof.
  intros H. induction l; simpl; auto using keeps_buffer_skip, keeps_buffer_seq.
Qed.

Lemma keeps_buffer_handleStdioMessage s m :
  keeps_buffer s (handleStdioMessage stringify s m).
Proof.
  intros g b. unfold handleStdioMessage, seq, with_session, with_buffer.
  cbn [heap set_heap]. rewrite lookup_alter_eq.
  destruct (heap g !! s) as [session|] eqn:E; cbn [fmap option_fmap option_map].
  2:{ cbn. rewrite lookup_alter_eq, E. reflexivity. }
  rewrite (alter_Some _ _ _ _ E).
  destruct (id m) as [i|]; cbn.
  - destruct (pendingRequests session !! i) as [k|]; cbn.
    + rewrite !(alter_Some _ _ _ _ E).
      rewrite !(alter_Some _ _ _ _ (lookup_insert_eq _ _ _)), ?insert_insert_eq.
      case_decide; cbn; rewrite !lookup_insert_eq; cbn.
      all: destruct (sseResponse session); cbn.
      all: rewrite ?(alter_Some _ _ _ _ (lookup_insert_eq _ _ _)), ?insert_insert_eq.
      all: reflexivity.
    + rewrite lookup_insert_eq, E; cbn.
      destruct (sseResponse session); cbn; rewrite (alter_Some _ _ _ _ E); reflexivity.
  - rewrite lookup_insert_eq, E; cbn.
    destruct (sseResponse session); cbn; rewrite (alter_Some _ _ _ _ E); reflexivity.
Qed.

Lemma keeps_buffer_handleLine s line : keeps_buffer s (handleLine parse stringify s line).
Proof.
  unfold handleLine. destruct (truthy _); [|apply keeps_buffer_skip].
  destruct (parse line);
    auto using keeps_buffer_skip, keeps_buffer_handleStdioMessage.
Qed.

Lemma with_buffer_twice s b1 b2 g :
  with_buffer s b2 (with_buffer s b1 g) = with_buffer s b2 g.
Proof.
  unfold with_buffer, set_heap; cbn.
  replace (alter (set_messageBuffer b2) s (alter (set_messageBuffer b1) s (heap g)))
    with (alter (set_messageBuffer b2) s (heap g)); [reflexivity|].
  apply map_eq. intros j.
  destruct (decide (s = j)) as [->|Hj].
  - rewrite !lookup_alter_eq. destruct (heap g !! j); reflexivity.
  - rewrite !lookup_alter_ne by exact Hj. reflexivity.
Qed.

Lemma with_buffer_lookup s b g :
  heap (with_buffer s b g) !! s = set_messageBuffer b <$> heap g !! s.
Proof. unfold with_buffer; cbn. apply lookup_alter_eq. Qed.

(** The session objects are never freed. *)
Lemma handleStdioMessage_heap s m g r :
  is_Some (heap g !! r) ->
  is_Some (heap (fst (handleStdioMessage stringify s m g)) !! r).
Proof.
  intros Hr. unfold handleStdioMessage, seq, with_session.
  destruct (heap g !! s) as [session|] eqn:E; [|rewrite E; exact Hr].
  destruct (id m) as [i|]; [destruct (pendingRequests session !! i) as [k|]|].
  - unfold assign, update, resolve, emit, seq. case_decide; cbn.
    all: rewrite lookup_alter_eq, E; cbn.
    all: destruct (sseResponse session); cbn.
    all: apply lookup_alter_is_Some; exact Hr.
  - unfold skip. rewrite E. destruct (sseResponse session); exact Hr.
  - unfold skip. rewrite E. destruct (sseResponse session); exact Hr.
Qed.

Lemma handleLine_heap s line g r :
  is_Some (heap g !! r) -> is_Some (heap (fst (handleLine parse stringify s line g)) !! r).
Proof.
  unfold handleLine. destruct (truthy _); [|auto].
  destruct (parse line); auto using handleStdioMessage_heap.
Qed.

Lemma for_of_heap {A} (l : list A) (body : A -> Action) r :
  (forall x g, is_Some (heap g !! r) -> is_Some (heap (fst (body x g)) !! r)) ->
  forall g, is_Some (heap g !! r) ->
            is_Some (heap (fst (for_of l body g)) !! r).
Proof.
  intros Hb. induction l as [|x l IH]; intros g Hg; simpl; [exact Hg|].
  unfold seq. specialize (Hb x g Hg). destruct (body x g) as [g1 e1].
  specialize (IH g1 Hb). destruct (for_of l body g1); exact IH.
Qed.

(** [handleStdioData] once the buffer has been split. *)
Lemma handleStdioData_lines s data g session ls l :
  heap g !! s = Some session ->
  split LF (messageBuffer session ++ toString data) = ls ++ [l] ->
  handleStdioData parse stringify s data g =
    (with_buffer s l (fst (for_of ls (handleLine parse stringify s) g)),
     snd (for_of ls (handleLine parse stringify s) g)).
Proof.
  intros E Hs. unfold handleStdioData, with_session. rewrite E, Hs.
  rewrite pop_snoc, or_empty_Some. unfold seq, assign, update.
  change (set_heap (alter (set_messageBuffer l) s (heap g)) g)
    with (with_buffer s l g).
  rewrite (keeps_buffer_for_of s ls _ (keeps_buffer_handleLine s)).
  reflexivity.
Qed.

(** Two deliveries whose texts concatenate act as the single delivery of
    their concatenation. *)
Lemma handleStdioData_app s d1 d2 g :
  toString (d1 ++ d2) = toString d1 ++ toString d2 ->
  (handleStdioData parse stringify s d1 ;;
   handleStdioData parse stringify s d2) g
  = handleStdioData parse stringify s (d1 ++ d2) g.
Proof.
  intros Hd. destruct (heap g !! s) as [session|] eqn:E.
  - destruct (split_snoc LF (messageBuffer session ++ toString d1))
      as (ls1 & l1 & H1 & _).
    destruct (split_snoc LF (l1 ++ toString d2)) as (ls2 & l2 & H2 & _).
    assert (split LF (messageBuffer session ++ toString (d1 ++ d2))
            = (ls1 ++ ls2) ++ [l2]) as H12.
    { rewrite Hd, app_assoc, (split_app LF _ _ _ _ H1), H2.
      apply app_assoc. }
    rewrite (handleStdioData_lines _ _ _ _ _ _ E H12).
    unfold seq. rewrite (handleStdioData_lines _ _ _ _ _ _ E H1).
    pose proof (for_of_heap ls1 (handleLine parse stringify s) s
                  (fun x g => handleLine_heap s x g s) g (mk_is_Some _ _ E)) as [x Hx].
    rewrite for_of_app. unfold seq.
    destruct (for_of ls1 (handleLine parse stringify s) g) as [g1 e1].
    cbn [fst snd] in *.
    assert (heap (with_buffer s l1 g1) !! s = Some (set_messageBuffer l1 x))
      as E1 by (rewrite with_buffer_lookup, Hx; reflexivity).
    rewrite (handleStdioData_lines _ _ _ _ _ _ E1 H2).
    rewrite (keeps_buffer_for_of s ls2 _ (keeps_buffer_handleLine s)).
    destruct (for_of ls2 (handleLine parse stringify s) g1) as [g2 e2].
    cbn [fst snd]. rewrite with_buffer_twice. reflexivity.
  - unfold seq, handleStdioData, with_session. rewrite !E. reflexivity.
Qed.

(** Chunk boundaries that fall between characters do not matter: the
    deliveries one by one act as the delivery of the whole stream. *)
Theorem feed_chunk_boundaries s (chunks : list (list byte)) final g :
  Forall complete_chunk chunks ->
  run parse stringify (map (StdoutData s) (chunks ++ [final])) g
  = handleStdioData parse stringify s (List.concat chunks ++ final) g.
Proof.
  intros H. revert g. induction H as [|c chunks Hc _ IH]; intros g.
  - cbn. unfold seq, skip.
    destruct (handleStdioData parse stringify s final g) as [g1 e1].
    rewrite app_nil_r. reflexivity.
  - cbn [app map List.concat]. unfold run in *. cbn [for_of step].
    rewrite <- app_assoc, <- handleStdioData_app by (apply toString_app, Hc).
    unfold seq. destruct (handleStdioData parse stringify s c g) as [g1 e1].
    rewrite IH. reflexivity.
Qed.

Lemma split_documents (docs : list jsstring) :
  Forall (fun d => LF ∉ d) docs ->
  split LF (List.concat (map (fun d => d ++ [LF]) docs)) = docs ++ [[]].
Proof.
  induction 1 as [|d docs Hd _ IH]; [reflexivity|].
  cbn [map List.concat app]. rewrite <- app_assoc. cbn [app].
  rewrite split_line by exact Hd. rewrite IH. reflexivity.
Qed.

(** X17: a line that does not parse is dropped; the lines around it are
    handled as if it had not been there. *)
Lemma parse_failure_dropped s l1 line l2 g :
  parse line = None ->
  for_of (l1 ++ line :: l2) (handleLine parse stringify s) g
  = for_of (l1 ++ l2) (handleLine parse stringify s) g.
Proof.
  intros Hp. rewrite !for_of_app. unfold seq.
  destruct (for_of l1 _ g) as [g1 e1]. cbn [for_of]. unfold seq.
  unfold handleLine at 1. rewrite Hp.
  destruct (truthy (trim line)); unfold skip;
    destruct (for_of l2 _ g1); reflexivity.
Qed.

Lemma for_of_documents s docs msgs g :
  Forall2 (fun d m => truthy (trim d) = true /\ parse d = Some m) docs msgs ->
  for_of docs (handleLine parse stringify s) g
  = for_of msgs (handleStdioMessage stringify s) g.
Proof.
  intros H. revert g. induction H as [|d m docs msgs [Ht Hp] _ IH]; intros g;
    [reflexivity|].
  cbn [for_of]. unfold seq. unfold handleLine at 1. rewrite Ht, Hp.
  destruct (handleStdioMessage stringify s m g) as [g1 e1]. rewrite IH.
  reflexivity.
Qed.

(** A delivery whose text is a sequence of newline-terminated documents,
    arriving on an empty buffer, dispatches exactly the parsed documents in
    order and leaves the buffer empty. *)
Theorem feed_documents s data g session docs msgs :
  heap g !! s = Some session ->
  messageBuffer session = [] ->
  toString data = List.concat (map (fun d => d ++ [LF]) docs) ->
  Forall (fun d => LF ∉ d) docs ->
  Forall2 (fun d m => truthy (trim d) = true /\ parse d = Some m) docs msgs ->
  handleStdioData parse stringify s data g
  = (with_buffer s [] (fst (for_of msgs (handleStdioMessage stringify s) g)),
     snd (for_of msgs (handleStdioMessage stringify s) g)).
Proof.
  intros E Hb Hd Hnl Hdocs.
  rewrite (handleStdioData_lines s data g session docs []); [|exact E|].
  - rewrite (for_of_documents s docs msgs g Hdocs). reflexivity.
  - rewrite Hb, Hd. apply split_documents, Hnl.
Qed.

(** After a delivery the buffer of the session is the part of the text after
    the last newline: it holds no complete line. *)
Theorem buffer_holds_fragment s data g session :
  heap g !! s = Some session ->
  exists session',
    heap (fst (handleStdioData parse stringify s data g)) !! s = Some session'
    /\ (LF ∉ messageBuffer session')
    /\ last (split LF (messageBuffer session ++ toString data))
       = Some (messageBuffer session').
Proof.
  intros E.
  destruct (split_snoc LF (messageBuffer session ++ toString data))
    as (ls & l & Hs & Hl).
  rewrite (handleStdioData_lines _ _ _ _ _ _ E Hs). cbn [fst].
  pose proof (for_of_heap ls (handleLine parse stringify s) s
                (fun x g => handleLine_heap s x g s) g (mk_is_Some _ _ E)) as [x Hx].
  exists (set_messageBuffer l x). rewrite with_buffer_lookup, Hx, Hs, last_snoc.
  auto.
Qed.

(** X16: a stream cut between characters into chunks, whose text is a
    sequence of newline-terminated documents: the deliveries dispatch
    exactly the parsed documents, in order, and leave the buffer empty. *)
Theorem feed_stream s chunks final g session docs msgs :
  heap g !! s = Some session ->
  messageBuffer session = [] ->
  Forall complete_chunk chunks ->
  toString (List.concat chunks ++ final)
  = List.concat (map (fun d => d ++ [LF]) docs) ->
  Forall (fun d => LF ∉ d) docs ->
  Forall2 (fun d m => truthy (trim d) = true /\ parse d = Some m) docs msgs ->
  run parse stringify (map (StdoutData s) (chunks ++ [final])) g
  = (with_buffer s [] (fst (for_of msgs (handleStdioMessage stringify s) g)),
     snd (for_of msgs (handleStdioMessage stringify s) g)).
Proof.
  intros E Hb Hc Hd Hnl Hdocs. rewrite (feed_chunk_boundaries s chunks final g Hc).
  exact (feed_documents s _ g session docs msgs E Hb Hd Hnl Hdocs).
Qed.

End Decoder.

(** ** No buffer ever holds a complete line *)

Section Buffers.
Variable parse : jsstring -> option JSONRPCMessage.
Variable stringify : JSONRPCMessage -> jsstring.

Definition fragment (session : Session) : Prop := LF ∉ messageBuffer session.

Definition fragments (g : Gateway) : Prop :=
  forall s session, heap g !! s = Some session -> fragment session.

Definition keeps_fragments (a : Action) : Prop :=
  forall g, fragments g -> fragments (fst (a g)).

Lemma keeps_fragments_same (a : Action) :
  (forall g, heap (fst (a g)) = heap g) -> keeps_fragments a.
Proof. intros H g Hg s session. rewrite H. apply Hg. Qed.

Lemma keeps_fragments_seq a b :
  keeps_fragments a -> keeps_fragments b -> keeps_fragments (a ;; b).
Proof.
  intros Ha Hb g Hg. unfold seq. specialize (Ha g Hg).
  destruct (a g) as [g1 e1]. specialize (Hb g1 Ha).
  destruct (b g1) as [g2 e2]. exact Hb.
Qed.

Lemma keeps_fragments_for_of {A} (l : list A) body :
  (forall x, keeps_fragments (body x)) -> keeps_fragments (for_of l body).
Proof.
  intros H. induction l; simpl; [apply keeps_fragments_same; reflexivity|].
  apply keeps_fragments_seq; auto.
Qed.

Lemma keeps_fragments_with_session s body :
  (forall session, keeps_fragments (body session)) ->
  keeps_fragments (with_session s body).
Proof.
  intros H g Hg. unfold with_session.
  destruct (heap g !! s) as [session|]; [apply H, Hg|exact Hg].
Qed.

Lemma keeps_fragments_assign s f :
  (forall session, fragment session -> fragment (f session)) ->
  keeps_fragments (assign s f).
Proof.
  intros Hf g Hg r session Hr. cbn in Hr.
  apply lookup_alter_Some in Hr as [[-> (x & Hx & ->)]|[_ Hr]].
  - apply Hf. exact (Hg _ _ Hx).
  - exact (Hg _ _ Hr).
Qed.

Lemma keeps_fragments_resolve k response : keeps_fragments (resolve k response).
Proof.
  apply keeps_fragments_same. intros g. unfold resolve. unfold_action.
  case_decide; reflexivity.
Qed.

Lemma keeps_fragments_try_createSession sessionId spawn_ok body handler :
  (forall s, keeps_fragments (body s)) -> keeps_fragments handler ->
  keeps_fragments (try_createSession sessionId spawn_ok body handler).
Proof.
  intros Hb Hh g Hg. unfold try_createSession, createSession.
  destruct spawn_ok; [|exact (Hh g Hg)].
  set (g1 := set_sessions _ _).
  assert (fragments g1) as H1.
  { intros r session Hr. cbn in Hr.
    apply lookup_insert_Some in Hr as [[_ <-]|[_ Hr]].
    - apply not_elem_of_nil.
    - exact (Hg _ _ Hr). }
  specialize (Hb (next g) g1 H1). destruct (body (next g) g1) as [g2 e2].
  exact Hb.
Qed.

Lemma keeps_fragments_handleStdioMessage s message :
  keeps_fragments (handleStdioMessage stringify s message).
Proof.
  unfold handleStdioMessage.
  apply keeps_fragments_seq; apply keeps_fragments_with_session; intros session.
  - destruct (id message) as [i|]; [|apply keeps_fragments_same; reflexivity].
    destruct (pendingRequests session !! i);
      [|apply keeps_fragments_same; reflexivity].
    apply keeps_fragments_seq; [|apply keeps_fragments_resolve].
    apply keeps_fragments_assign. intros x Hx. exact Hx.
  - destruct (sseResponse session); apply keeps_fragments_same; reflexivity.
Qed.

Lemma keeps_fragments_handleStdioData s data :
  keeps_fragments (handleStdioData parse stringify s data).
Proof.
  unfold handleStdioData. apply keeps_fragments_with_session. intros session.
  destruct (split_snoc LF (messageBuffer session ++ toString data))
    as (ls & l & -> & Hl).
  rewrite pop_snoc, or_empty_Some. apply keeps_fragments_seq.
  - apply keeps_fragments_assign. intros x _. exact Hl.
  - apply keeps_fragments_for_of. intros line. unfold handleLine.
    destruct (truthy _); [|apply keeps_fragments_same; reflexivity].
    destruct (parse line);
      [apply keeps_fragments_handleStdioMessage
      |apply keeps_fragments_same; reflexivity].
Qed.

Lemma keeps_fragments_attach s res : keeps_fragments (attach s res).
Proof.
  unfold attach.
  repeat (apply keeps_fragments_seq;
          [first [apply keeps_fragments_same; reflexivity | idtac]|]).
  - apply keeps_fragments_assign. intros x Hx. exact Hx.
  - apply keeps_fragments_same. reflexivity.
Qed.

Lemma keeps_fragments_processMessage s message res :
  keeps_fragments (processMessage stringify s message res).
Proof.
  unfold processMessage. destruct (id message) as [i|].
  - case_decide; [apply keeps_fragments_same; reflexivity|].
    case_decide; [apply keeps_fragments_same; reflexivity|].
    apply keeps_fragments_seq; [|apply keeps_fragments_seq].
    + apply keeps_fragments_assign. intros x Hx. exact Hx.
    + apply keeps_fragments_with_session. intros session.
      apply keeps_fragments_same. reflexivity.
    + apply keeps_fragments_same. reflexivity.
  - apply keeps_fragments_seq; [|apply keeps_fragments_same; reflexivity].
    apply keeps_fragments_with_session. intros session.
    apply keeps_fragments_same. reflexivity.
Qed.

Lemma keeps_fragments_step ev : keeps_fragments (step parse stringify ev).
Proof.
  destruct ev; cbn [step].
  - intros g Hg. unfold handleSSE.
    destruct (sessions g !! _); [exact (keeps_fragments_attach _ _ g Hg)|].
    apply keeps_fragments_try_createSession; [| |exact Hg].
    + intros s. apply keeps_fragments_seq; [|apply keeps_fragments_attach].
      apply keeps_fragments_same. reflexivity.
    + apply keeps_fragments_same. reflexivity.
  - intros g Hg. unfold handleMessage.
    destruct (connected_session _ g);
      [exact (keeps_fragments_processMessage _ _ _ g Hg)|].
    apply keeps_fragments_try_createSession; [| |exact Hg].
    + intros s. apply keeps_fragments_seq; [|apply keeps_fragments_processMessage].
      apply keeps_fragments_same. reflexivity.
    + apply keeps_fragments_same. reflexivity.
  - intros g Hg. unfold onClose. destruct (closeListeners g !! res); [|exact Hg].
    apply keeps_fragments_with_session; [|exact Hg]. intros session.
    case_decide; [|apply keeps_fragments_same; reflexivity].
    apply keeps_fragments_assign. intros x Hx. exact Hx.
  - apply keeps_fragments_handleStdioData.
  - apply keeps_fragments_same. reflexivity.
  - apply keeps_fragments_assign. intros x Hx. exact Hx.
  - unfold onExit. apply keeps_fragments_with_session. intros session.
    apply keeps_fragments_seq; [|apply keeps_fragments_same; reflexivity].
    apply keeps_fragments_assign. intros x Hx. exact Hx.
  - intros g Hg. unfold onTimeout. destruct (timers g !! t) as [tm|]; [|exact Hg].
    refine (keeps_fragments_seq _ _ _ _ g Hg);
      [apply keeps_fragments_same; reflexivity|].
    apply keeps_fragments_with_session. intros session.
    destruct (pendingRequests session !! t_id tm);
      [|apply keeps_fragments_same; reflexivity].
    apply keeps_fragments_seq; [|apply keeps_fragments_resolve].
    apply keeps_fragments_assign. intros x Hx. exact Hx.
  - intros g Hg. unfold close. refine (keeps_fragments_seq _ _ _ _ g Hg).
    + apply keeps_fragments_for_of. intros s.
      apply keeps_fragments_with_session. intros session.
      apply keeps_fragments_same. reflexivity.
    + apply keeps_fragments_same. reflexivity.
Qed.

(** X18: in every state the gateway can reach, the buffer of every session
    is free of newlines: it never holds a terminated frame. *)
Theorem buffers_hold_fragments evs :
  fragments (fst (run parse stringify evs new_gateway)).
Proof.
  assert (forall g, fragments g -> fragments (fst (run parse stringify evs g)))
    as H.
  { unfold run. induction evs as [|ev evs IH]; intros g Hg; [exact Hg|].
    cbn [for_of].
    exact (keeps_fragments_seq _ _ (keeps_fragments_step ev) IH g Hg). }
  apply H. intros s session Hs. cbn in Hs. rewrite lookup_empty in Hs.
  discriminate.
Qed.

End Buffers.

(** ** Dispatch of a backend message *)

Section Dispatch.
Variable stringify : JSONRPCMessage -> jsstring.

(** What [handleStdioMessage] writes to the stream of the session. *)
Definition pushed (session : Session) (message : JSONRPCMessage) : list Effect :=
  match sseResponse session with
  | Some res => [SseWrite res (sse_frame stringify message)]
  | None => []
  end.

(** The timeout of a request removes its identifier from the table. *)
Lemma onTimeout_removes t tm g session :
  timers g !! t = Some tm ->
  heap g !! t_session tm = Some session ->
  exists session',
    heap (fst (onTimeout t g)) !! t_session tm = Some session'
    /\ pendingRequests session' !! t_id tm = None
    /\ sseResponse session' = sseResponse session.
Proof.
  intros Ht Hs. unfold onTimeout. rewrite Ht. unfold_action. rewrite Hs.
  destruct (pendingRequests session !! t_id tm) as [k|] eqn:Hp.
  - case_decide; unfold_action.
    all: rewrite lookup_alter_eq, Hs; cbn.
    all: eexists; split; [reflexivity|]; cbn.
    all: split; [apply lookup_delete_eq | reflexivity].
  - unfold_action. rewrite Hs. eauto.
Qed.

(** A message whose id is in the pending table of the session. *)
Lemma handleStdioMessage_matched s session message i k g :
  heap g !! s = Some session ->
  id message = Some i ->
  pendingRequests session !! i = Some k ->
  handleStdioMessage stringify s message g
  = (let g1 :=
       set_heap (<[s := set_pendingRequests (delete i (pendingRequests session))
                          session]> (heap g)) g in
     if decide (k ∈ settled g) then g1
     else set_settled ({[k]} ∪ settled g) g1,
     Resolve k message
       :: (if decide (k ∈ settled g) then []
           else [HttpReply k 200 (JsonRpc message)])
       ++ pushed session message).
Proof.
  intros E Hi Hp. unfold handleStdioMessage, pushed. unfold_action.
  rewrite E, Hi, Hp. rewrite (alter_Some _ _ _ _ E).
  case_decide; unfold_action; rewrite lookup_insert_eq; cbn.
  all: destruct (sseResponse session); reflexivity.
Qed.

(** A message without id, or whose id is not in the table. *)
Lemma handleStdioMessage_unmatched s session message g :
  heap g !! s = Some session ->
  (forall i, id message = Some i -> pendingRequests session !! i = None) ->
  handleStdioMessage stringify s message g = (g, pushed session message).
Proof.
  intros E Hp. unfold handleStdioMessage, pushed. unfold_action. rewrite E.
  destruct (id message) as [i|]; [rewrite (Hp i eq_refl)|]; rewrite E.
  all: destruct (sseResponse session); reflexivity.
Qed.

(** C4: the two delivery paths of [handleStdioMessage] are independent.  A
    message whose id is in the pending table of the session calls the
    registered resolver with the message (answering the request unless its
    promise is settled already) and removes the entry; in every case the
    message is then written to the stream of the session when there is one.
    A message whose id is not in the table, such as a reply that comes after
    the timeout of its request, calls no resolver and changes nothing, and
    is still written to the stream. *)
Theorem dispatch_paths_independent s session message g :
  heap g !! s = Some session ->
  (forall i k,
      id message = Some i -> pendingRequests session !! i = Some k ->
      snd (handleStdioMessage stringify s message g)
      = Resolve k message
          :: (if decide (k ∈ settled g) then []
              else [HttpReply k 200 (JsonRpc message)])
          ++ pushed session message
      /\ heap (fst (handleStdioMessage stringify s message g)) !! s
         = Some (set_pendingRequests (delete i (pendingRequests session)) session))
  /\ (forall i,
      id message = Some i -> pendingRequests session !! i = None ->
      handleStdioMessage stringify s message g = (g, pushed session message))
  /\ (id message = None ->
      handleStdioMessage stringify s message g = (g, pushed session message))
  /\ (forall t tm,
      timers g !! t = Some tm -> t_session tm = s -> id message = Some (t_id tm) ->
      exists session',
        heap (fst (onTimeout t g)) !! s = Some session'
        /\ handleStdioMessage stringify s message (fst (onTimeout t g))
           = (fst (onTimeout t g), pushed session message)).
Proof.
  intros E. split; [|split; [|split]].
  - intros i k Hi Hp. rewrite (handleStdioMessage_matched _ _ _ _ _ _ E Hi Hp).
    split; [reflexivity|].
    case_decide; cbn; apply lookup_insert_eq.
  - intros i Hi Hp. apply handleStdioMessage_unmatched; [exact E|].
    intros j Hj. congruence.
  - intros Hi. apply handleStdioMessage_unmatched; [exact E|].
    intros j Hj. congruence.
  - intros t tm Ht <- Hi.
    destruct (onTimeout_removes t tm g session Ht E) as (session' & E' & Hp & Hsse).
    exists session'. split; [exact E'|].
    rewrite (handleStdioMessage_unmatched _ _ _ _ E').
    + unfold pushed. rewrite Hsse. reflexivity.
    + intros j Hj. congruence.
Qed.

End Dispatch.

(** ** The stream of a session *)

Section Stream.
Variable stringify : JSONRPCMessage -> jsstring.

Definition sse_headers (res : nat) : list Effect :=
  [SetHeader res (js "Content-Type") (js "text/event-stream");
   SetHeader res (js "Cache-Control") (js "no-cache");
   SetHeader res (js "Connection") (js "keep-alive");
   SetHeader res (js "X-Accel-Buffering") (js "no")].

Lemma attach_spec s res session g :
  heap g !! s = Some session ->
  attach s res g
  = (set_closeListeners (<[res := s]> (closeListeners g))
       (set_heap (<[s := set_sseResponse (Some res) session]> (heap g)) g),
     sse_headers res ++ [SseWrite res (js ":ok" ++ [LF; LF])]).
Proof.
  intros E. unfold attach. unfold_action. rewrite (alter_Some _ _ _ _ E).
  reflexivity.
Qed.

Lemma attach_sessions s res g : sessions (fst (attach s res g)) = sessions g.
Proof. reflexivity. Qed.

(** A GET for a stored session attaches to the stored object, whatever its
    [connected] flag, and creates nothing. *)
Lemma handleSSE_stored req res spawn_ok s g :
  sessions g !! sseSessionId req = Some s ->
  handleSSE req res spawn_ok g = attach s res g.
Proof. intros E. unfold handleSSE. rewrite E. reflexivity. Qed.

(** The close listener of [old] leaves the stream of a session alone unless
    [old] is the stored response. *)
Lemma onClose_superseded old s session g :
  heap g !! s = Some session ->
  sseResponse session <> Some old ->
  exists session',
    heap (fst (onClose old g)) !! s = Some session'
    /\ sseResponse session' = sseResponse session
    /\ snd (onClose old g) = [].
Proof.
  intros E Hne. unfold onClose.
  destruct (closeListeners g !! old) as [s'|]; [|eauto].
  unfold with_session. destruct (heap g !! s') as [session'|] eqn:E'; [|eauto].
  case_decide as Hd; [|eauto]. unfold_action.
  destruct (decide (s' = s)) as [->|Hs].
  - congruence.
  - rewrite lookup_alter_ne by exact Hs. eauto.
Qed.

(** C7: a new SSE connection for a session replaces the stored sink, the
    messages dispatched afterwards are written to the new sink only, and the
    close event of the superseded connection leaves the new sink in place:
    the listener clears the field only when it still holds the response
    that closed, as the close event of the new connection shows. *)
Theorem new_sink_replaces_old req res old spawn_ok s session g :
  sessions g !! sseSessionId req = Some s ->
  heap g !! s = Some session ->
  sseResponse session = Some old ->
  closeListeners g !! old = Some s ->
  old <> res ->
  let g1 := fst (handleSSE req res spawn_ok g) in
  heap g1 !! s = Some (set_sseResponse (Some res) session)
  /\ (forall message r data,
        In (SseWrite r data) (snd (handleStdioMessage stringify s message g1)) ->
        r = res /\ data = sse_frame stringify message)
  /\ (forall message,
        In (SseWrite res (sse_frame stringify message))
           (snd (handleStdioMessage stringify s message g1)))
  /\ onClose old g1 = (g1, [])
  /\ heap (fst (onClose res g1)) !! s = Some (set_sseResponse None session).
Proof.
  intros Hs E Hold Hl Hne g1.
  assert (g1 = set_closeListeners (<[res := s]> (closeListeners g))
                 (set_heap (<[s := set_sseResponse (Some res) session]> (heap g)) g))
    as Hg1.
  { unfold g1. rewrite (handleSSE_stored _ _ _ _ _ Hs), (attach_spec _ _ _ _ E).
    reflexivity. }
  assert (heap g1 !! s = Some (set_sseResponse (Some res) session)) as E1.
  { rewrite Hg1. cbn. apply lookup_insert_eq. }
  assert (forall message,
            snd (handleStdioMessage stringify s message g1)
            = match id message with
              | Some i =>
                  match pendingRequests session !! i with
                  | Some k => Resolve k message
                              :: (if decide (k ∈ settled g1) then []
                                  else [HttpReply k 200 (JsonRpc message)])
                  | None => []
                  end
              | None => []
              end ++ [SseWrite res (sse_frame stringify message)]) as Hd.
  { intros message. destruct (id message) as [i|] eqn:Hi.
    - destruct (pendingRequests session !! i) as [k|] eqn:Hp.
      + rewrite (handleStdioMessage_matched _ _ _ _ i k _ E1 Hi Hp).
        cbn [snd]. rewrite app_comm_cons. reflexivity.
      + rewrite (handleStdioMessage_unmatched _ _ _ _ _ E1); [reflexivity|].
        intros j Hj. cbn. congruence.
    - rewrite (handleStdioMessage_unmatched _ _ _ _ _ E1); [reflexivity|].
      intros j Hj. congruence. }
  split; [exact E1|]. split; [|split; [|split]].
  - intros message r data Hin. rewrite Hd in Hin.
    apply in_app_or in Hin as [Hin|[Hin|[]]].
    + destruct (id message) as [i|]; [|destruct Hin].
      destruct (pendingRequests session !! i) as [k|]; [|destruct Hin].
      destruct Hin as [Hin|Hin]; [discriminate|].
      case_decide; [destruct Hin|destruct Hin as [Hin|[]]; discriminate].
    + injection Hin as <- <-. auto.
  - intros message. rewrite Hd. apply in_or_app. right. left. reflexivity.
  - unfold onClose. rewrite Hg1 at 1. cbn [closeListeners set_closeListeners].
    rewrite lookup_insert_ne by exact (not_eq_sym Hne).
    cbn [closeListeners set_heap]. rewrite Hl. unfold with_session. rewrite E1.
    cbn [sseResponse set_sseResponse]. case_decide as Hd'; [|reflexivity].
    congruence.
  - unfold onClose. rewrite Hg1 at 1. cbn [closeListeners set_closeListeners].
    rewrite lookup_insert_eq. unfold with_session. rewrite E1.
    cbn [sseResponse set_sseResponse]. rewrite decide_True by reflexivity.
    unfold_action. rewrite lookup_alter_eq, E1. reflexivity.
Qed.

End Stream.

(** ** The entries of the session store

    An entry of the store goes with the 'exit' event of a process and with
    the shutdown of the gateway; no other event removes one. *)

Section Store.
Variable parse : jsstring -> option JSONRPCMessage.
Variable stringify : JSONRPCMessage -> jsstring.

Definition keeps_entries (a : Action) : Prop :=
  forall g sessionId,
    is_Some (sessions g !! sessionId) ->
    is_Some (sessions (fst (a g)) !! sessionId).

Lemma keeps_entries_same (a : Action) :
  (forall g, sessions (fst (a g)) = sessions g) -> keeps_entries a.
Proof. intros H g sessionId. rewrite H. auto. Qed.

Lemma keeps_entries_seq a b :
  keeps_entries a -> keeps_entries b -> keeps_entries (a ;; b).
Proof.
  intros Ha Hb g sessionId Hg. unfold seq. specialize (Ha g sessionId Hg).
  destruct (a g) as [g1 e1]. specialize (Hb g1 sessionId Ha).
  destruct (b g1) as [g2 e2]. exact Hb.
Qed.

Lemma keeps_entries_for_of {A} (l : list A) body :
  (forall x, keeps_entries (body x)) -> keeps_entries (for_of l body).
Proof.
  intros H. induction l; simpl; [apply keeps_entries_same; reflexivity|].
  apply keeps_entries_seq; auto.
Qed.

Lemma keeps_entries_with_session s body :
  (forall session, keeps_entries (body session)) ->
  keeps_entries (with_session s body).
Proof.
  intros H g sessionId Hg. unfold with_session.
  destruct (heap g !! s) as [session|]; [apply H, Hg|exact Hg].
Qed.

Lemma keeps_entries_resolve k response : keeps_entries (resolve k response).
Proof.
  apply keeps_entries_same. intros g. unfold resolve. unfold_action.
  case_decide; reflexivity.
Qed.

Lemma keeps_entries_insert sessionId s :
  keeps_entries
    (update (fun g => set_sessions (<[sessionId := s]> (sessions g)) g)).
Proof.
  intros g sid Hg. cbn. rewrite lookup_insert_is_Some.
  destruct (decide (sessionId = sid)); auto.
Qed.

Lemma keeps_entries_try_createSession sessionId spawn_ok body handler :
  (forall s, keeps_entries (body s)) -> keeps_entries handler ->
  keeps_entries (try_createSession sessionId spawn_ok body handler).
Proof.
  intros Hb Hh g sid Hg. unfold try_createSession, createSession.
  destruct spawn_ok; [|exact (Hh g sid Hg)].
  set (g1 := set_sessions _ _).
  assert (is_Some (sessions g1 !! sid)) as H1.
  { cbn. rewrite lookup_insert_is_Some.
    destruct (decide (sessionId = sid)); auto. }
  specialize (Hb (next g) g1 sid H1). destruct (body (next g) g1) as [g2 e2].
  exact Hb.
Qed.

Lemma keeps_entries_handleStdioMessage s message :
  keeps_entries (handleStdioMessage stringify s message).
Proof.
  unfold handleStdioMessage.
  apply keeps_entries_seq; apply keeps_entries_with_session; intros session.
  - destruct (id message) as [i|]; [|apply keeps_entries_same; reflexivity].
    destruct (pendingRequests session !! i);
      [|apply keeps_entries_same; reflexivity].
    apply keeps_entries_seq; [|apply keeps_entries_resolve].
    apply keeps_entries_same. reflexivity.
  - destruct (sseResponse session); apply keeps_entries_same; reflexivity.
Qed.

Lemma keeps_entries_processMessage s message res :
  keeps_entries (processMessage stringify s message res).
Proof.
  unfold processMessage. destruct (id message) as [i|].
  - case_decide; [apply keeps_entries_same; reflexivity|].
    case_decide; [apply keeps_entries_same; reflexivity|].
    apply keeps_entries_seq; [|apply keeps_entries_seq].
    + apply keeps_entries_same. reflexivity.
    + apply keeps_entries_with_session. intros session.
      apply keeps_entries_same. reflexivity.
    + apply keeps_entries_same. reflexivity.
  - apply keeps_entries_seq; [|apply keeps_entries_same; reflexivity].
    apply keeps_entries_with_session. intros session.
    apply keeps_entries_same. reflexivity.
Qed.

(** The events other than the exit of a process and the shutdown. *)
Definition running (ev : Event) : Prop :=
  match ev with
  | ProcessExit _ | Shutdown => False
  | _ => True
  end.

Lemma entries_stay ev : running ev -> keeps_entries (step parse stringify ev).
Proof.
  destruct ev; cbn [running step]; intros Hev; try contradiction.
  - intros g sid Hg. unfold handleSSE.
    destruct (sessions g !! sseSessionId req);
      [rewrite attach_sessions; exact Hg|].
    apply keeps_entries_try_createSession; [| |exact Hg].
    + intros s. apply keeps_entries_seq; [apply keeps_entries_insert|].
      apply keeps_entries_same. intros g'. apply attach_sessions.
    + apply keeps_entries_same. reflexivity.
  - intros g sid Hg. unfold handleMessage.
    destruct (connected_session _ g);
      [exact (keeps_entries_processMessage _ _ _ g sid Hg)|].
    apply keeps_entries_try_createSession; [| |exact Hg].
    + intros s. apply keeps_entries_seq; [apply keeps_entries_insert|].
      apply keeps_entries_processMessage.
    + apply keeps_entries_same. reflexivity.
  - intros g sid Hg. unfold onClose. destruct (closeListeners g !! res); [|exact Hg].
    apply keeps_entries_with_session; [|exact Hg]. intros session.
    case_decide; apply keeps_entries_same; reflexivity.
  - unfold handleStdioData. apply keeps_entries_with_session. intros session.
    destruct (pop _) as [last_line lines].
    apply keeps_entries_seq; [apply keeps_entries_same; reflexivity|].
    apply keeps_entries_for_of. intros line. unfold handleLine.
    destruct (truthy _); [|apply keeps_entries_same; reflexivity].
    destruct (parse line);
      [apply keeps_entries_handleStdioMessage
      |apply keeps_entries_same; reflexivity].
  - apply keeps_entries_same. reflexivity.
  - apply keeps_entries_same. reflexivity.
  - intros g sid Hg. unfold onTimeout.
    destruct (timers g !! t) as [tm|]; [|exact Hg].
    refine (keeps_entries_seq _ _ _ _ g sid Hg);
      [apply keeps_entries_same; reflexivity|].
    apply keeps_entries_with_session. intros session.
    destruct (pendingRequests session !! t_id tm);
      [|apply keeps_entries_same; reflexivity].
    apply keeps_entries_seq; [|apply keeps_entries_resolve].
    apply keeps_entries_same. reflexivity.
Qed.

End Store.

(** ** Process events *)

Section ProcessEvents.
Variable parse : jsstring -> option JSONRPCMessage.
Variable stringify : JSONRPCMessage -> jsstring.

Lemma onExit_spec s session g :
  heap g !! s = Some session ->
  onExit s g
  = (set_sessions (delete (session_id session) (sessions g))
       (set_heap (<[s := set_connected false session]> (heap g)) g), []).
Proof.
  intros E. unfold onExit. unfold_action. rewrite E.
  rewrite (alter_Some _ _ _ _ E). reflexivity.
Qed.

Lemma onError_spec s session g :
  heap g !! s = Some session ->
  onError s g
  = (set_heap (<[s := set_connected false session]> (heap g)) g, []).
Proof.
  intros E. unfold onError. unfold_action. rewrite (alter_Some _ _ _ _ E).
  reflexivity.
Qed.

(** The timer of a request whose entry is still in the table of its session
    removes the entry and calls the resolver with the timeout error. *)
Lemma onTimeout_fires t tm session g :
  timers g !! t = Some tm ->
  heap g !! t_session tm = Some session ->
  is_Some (pendingRequests session !! t_id tm) ->
  onTimeout t g
  = (let g1 :=
       set_heap (<[t_session tm :=
                     set_pendingRequests (delete (t_id tm) (pendingRequests session))
                       session]> (heap g))
         (set_timers (delete t (timers g)) g) in
     if decide (t_resolve tm ∈ settled g) then g1
     else set_settled ({[t_resolve tm]} ∪ settled g) g1,
     Resolve (t_resolve tm) (timeout_response (t_id tm))
       :: (if decide (t_resolve tm ∈ settled g) then []
           else [HttpReply (t_resolve tm) 200
                   (JsonRpc (timeout_response (t_id tm)))])).
Proof.
  intros Ht E [k Hk]. unfold onTimeout. rewrite Ht. unfold_action.
  rewrite E, Hk. unfold_action. rewrite (alter_Some _ _ _ _ E).
  case_decide; reflexivity.
Qed.

(** The timer of a request whose identifier has left the table does
    nothing: it is only taken off the list of timers. *)
Lemma onTimeout_after_reply t tm session g :
  timers g !! t = Some tm ->
  heap g !! t_session tm = Some session ->
  pendingRequests session !! t_id tm = None ->
  onTimeout t g = (set_timers (delete t (timers g)) g, []).
Proof.
  intros Ht E Hp. unfold onTimeout. rewrite Ht. unfold_action.
  rewrite E, Hp. reflexivity.
Qed.

(** C8 (amended): when the process of a session exits, the session object
    is marked disconnected (its [connected] flag reads false) and its id is
    removed from the store; nothing else happens: no process is spawned, no
    resolver is called, no reply is sent, and the pending table, the timers
    and the settled promises are as before.  A request still pending is
    answered by whichever comes first.  Its own timer, set for 30000 ms,
    removes the entry and answers with the timeout error.  A reply of the
    process that is read from its stdout after the exit removes the entry
    and answers the request as well, and the timer then finds no entry and
    does nothing. *)
Theorem exit_leaves_pending_requests s session g :
  heap g !! s = Some session ->
  let g1 := fst (onExit s g) in
  snd (onExit s g) = []
  /\ heap g1 !! s = Some (set_connected false session)
  /\ sessions g1 !! session_id session = None
  /\ (forall r, r <> s -> heap g1 !! r = heap g !! r)
  /\ timers g1 = timers g /\ settled g1 = settled g /\ next g1 = next g
  /\ (forall t i k,
        timers g !! t
        = Some {| t_session := s; t_id := i; t_resolve := k; t_delay := 30000 |} ->
        pendingRequests session !! i = Some k ->
        k ∉ settled g ->
        snd (onTimeout t g1)
        = [Resolve k (timeout_response i);
           HttpReply k 200 (JsonRpc (timeout_response i))]
        /\ exists session',
             heap (fst (onTimeout t g1)) !! s = Some session'
             /\ pendingRequests session' = delete i (pendingRequests session))
  /\ connected <$> heap g1 !! s = Some false
  /\ pendingRequests <$> heap g1 !! s = Some (pendingRequests session)
  /\ connected_session (session_id session) g1 = None
  /\ (forall message i k,
        id message = Some i ->
        pendingRequests session !! i = Some k ->
        k ∉ settled g ->
        snd (handleStdioMessage stringify s message g1)
        = Resolve k message :: HttpReply k 200 (JsonRpc message)
            :: pushed stringify session message
        /\ forall t,
             timers g !! t
             = Some {| t_session := s; t_id := i; t_resolve := k;
                       t_delay := 30000 |} ->
             onTimeout t (fst (handleStdioMessage stringify s message g1))
             = (set_timers (delete t (timers g))
                  (fst (handleStdioMessage stringify s message g1)), [])).
Proof.
  intros E g1. unfold g1. rewrite (onExit_spec _ _ _ E).
  cbn [fst snd heap sessions timers settled next set_sessions set_heap].
  split; [reflexivity|]. split; [apply lookup_insert_eq|].
  split; [apply lookup_delete_eq|].
  split; [intros r Hr; apply lookup_insert_ne; congruence|].
  split; [reflexivity|]. split; [reflexivity|]. split; [reflexivity|].
  split.
  { intros t i k Ht Hp Hk.
    erewrite onTimeout_fires;
      [ | exact Ht | cbn; apply lookup_insert_eq | cbn; rewrite Hp; eauto ].
    cbn [t_resolve t_id t_session settled set_sessions set_heap].
    rewrite !decide_False by exact Hk. split; [reflexivity|].
    eexists. split; [cbn; apply lookup_insert_eq|reflexivity]. }
  split; [rewrite lookup_insert_eq; reflexivity|].
  split; [rewrite lookup_insert_eq; reflexivity|].
  split.
  { unfold connected_session. cbn [sessions set_sessions].
    rewrite lookup_delete_eq. reflexivity. }
  intros message i k Hi Hp Hk.
  set (g' := set_sessions _ _).
  assert (heap g' !! s = Some (set_connected false session)) as E'
    by (cbn; apply lookup_insert_eq).
  rewrite (handleStdioMessage_matched stringify s _ message i k g' E' Hi Hp).
  cbn [fst snd settled g' set_sessions set_heap].
  rewrite !decide_False by exact Hk. split; [reflexivity|].
  intros t Ht.
  erewrite onTimeout_after_reply;
    [ reflexivity | exact Ht | cbn; apply lookup_insert_eq
    | cbn; apply lookup_delete_eq ].
Qed.

(** C10: the 'error' event of the process marks the session disconnected
    and leaves it in the store.  The entry goes with the 'exit' event; no
    event before that (short of the shutdown of the gateway) removes it.
    [handleSSE] looks the id up without reading the flag, so a GET for that
    id attaches to the disconnected session object and creates no session.
    The [connected] flag of the session object reads false after the event,
    and still does after the GET: the test of [handleMessage] for a stored
    and connected session fails for the id, before and after the GET. *)
Theorem error_keeps_session_stored req res spawn_ok s session g :
  heap g !! s = Some session ->
  sessions g !! session_id session = Some s ->
  sseSessionId req = session_id session ->
  let g1 := fst (onError s g) in
  let g2 := fst (handleSSE req res spawn_ok g1) in
  snd (onError s g) = []
  /\ heap g1 !! s = Some (set_connected false session)
  /\ sessions g1 = sessions g
  /\ snd (handleSSE req res spawn_ok g1)
     = sse_headers res ++ [SseWrite res (js ":ok" ++ [LF; LF])]
  /\ heap g2 !! s
     = Some (set_sseResponse (Some res) (set_connected false session))
  /\ sessions g2 = sessions g /\ next g2 = next g
  /\ sessions (fst (onExit s g1)) !! session_id session = None
  /\ (forall ev,
        running ev ->
        is_Some (sessions (fst (step parse stringify ev g1))
                   !! session_id session))
  /\ connected <$> heap g1 !! s = Some false
  /\ connected_session (session_id session) g1 = None
  /\ connected <$> heap g2 !! s = Some false
  /\ connected_session (session_id session) g2 = None
  /\ (forall r, r <> s -> heap g1 !! r = heap g !! r)
  /\ session_id <$> heap g1 !! s = Some (session_id session)
  /\ pendingRequests <$> heap g1 !! s = Some (pendingRequests session)
  /\ sseResponse <$> heap g1 !! s = Some (sseResponse session).
Proof.
  intros E Hs Hid g1 g2. unfold g2, g1. rewrite (onError_spec _ _ _ E).
  cbn [fst snd].
  set (g' := set_heap (<[s := set_connected false session]> (heap g)) g).
  assert (heap g' !! s = Some (set_connected false session)) as E'
    by (cbn; apply lookup_insert_eq).
  rewrite (handleSSE_stored req res spawn_ok s g') by (rewrite Hid; exact Hs).
  rewrite (attach_spec _ _ _ _ E'), (onExit_spec _ _ _ E').
  cbn [fst snd heap sessions next set_heap set_closeListeners set_sessions
       session_id set_connected].
  split; [reflexivity|]. split; [exact E'|]. split; [reflexivity|].
  split; [reflexivity|]. split; [apply lookup_insert_eq|].
  split; [reflexivity|]. split; [reflexivity|].
  split; [apply lookup_delete_eq|].
  split.
  { intros ev Hev. apply (entries_stay parse stringify ev Hev g').
    cbn. rewrite Hs. eauto. }
  split; [rewrite E'; reflexivity|].
  split.
  { unfold connected_session. cbn [sessions g' set_heap]. rewrite Hs, E'.
    reflexivity. }
  split; [rewrite lookup_insert_eq; reflexivity|].
  split.
  { unfold connected_session. cbn [sessions heap set_closeListeners set_heap g'].
    rewrite Hs, lookup_insert_eq. reflexivity. }
  split; [intros r Hr; cbn; apply lookup_insert_ne; congruence|].
  rewrite E'. auto.
Qed.

End ProcessEvents.

(** ** One request, one reply, one timer

    A request whose entry in the pending table is its own is answered once,
    whichever of the reply and the timer comes first: the later one finds
    no entry. *)

Section Correlation.
Variable stringify : JSONRPCMessage -> jsstring.

Lemma reply_then_timeout s session message i k t g :
  heap g !! s = Some session ->
  id message = Some i ->
  pendingRequests session !! i = Some k ->
  k ∉ settled g ->
  timers g !! t
  = Some {| t_session := s; t_id := i; t_resolve := k; t_delay := 30000 |} ->
  snd ((handleStdioMessage stringify s message ;; onTimeout t) g)
  = Resolve k message :: HttpReply k 200 (JsonRpc message)
      :: pushed stringify session message.
Proof.
  intros E Hi Hp Hk Ht. unfold seq.
  rewrite (handleStdioMessage_matched _ _ _ _ _ _ _ E Hi Hp).
  rewrite !decide_False by exact Hk.
  erewrite onTimeout_after_reply;
    [ | exact Ht | cbn; apply lookup_insert_eq | cbn; apply lookup_delete_eq ].
  rewrite app_nil_r. reflexivity.
Qed.

Lemma timeout_then_reply s session message i k t g :
  heap g !! s = Some session ->
  id message = Some i ->
  pendingRequests session !! i = Some k ->
  k ∉ settled g ->
  timers g !! t
  = Some {| t_session := s; t_id := i; t_resolve := k; t_delay := 30000 |} ->
  snd ((onTimeout t ;; handleStdioMessage stringify s message) g)
  = Resolve k (timeout_response i)
      :: HttpReply k 200 (JsonRpc (timeout_response i))
      :: pushed stringify session message.
Proof.
  intros E Hi Hp Hk Ht. unfold seq.
  erewrite onTimeout_fires; [ | exact Ht | exact E | cbn; rewrite Hp; eauto ].
  cbn [t_session t_id t_resolve]. rewrite !decide_False by exact Hk.
  rewrite (handleStdioMessage_unmatched stringify s
             (set_pendingRequests (delete i (pendingRequests session)) session)
             message).
  - reflexivity.
  - cbn. apply lookup_insert_eq.
  - intros j Hj. cbn. replace j with i by congruence. apply lookup_delete_eq.
Qed.

End Correlation.

(** ** Posted messages *)

Section Post.
Variable stringify : JSONRPCMessage -> jsstring.

(** The state once [createSession] has succeeded for [sessionId] and the
    caller has stored the session (again). *)
Definition created (sessionId : jsstring) (g : Gateway) : Gateway :=
  set_sessions (<[sessionId := next g]> (sessions g))
    (set_heap (<[next g := fresh_session sessionId (next g)]> (heap g))
       (set_next (S (next g)) g)).

Definition creation_failed : Body :=
  JsonRpc (error_envelope (js "Failed to create session")).

Lemma connected_session_Some sessionId g s :
  connected_session sessionId g = Some s ->
  exists session,
    sessions g !! sessionId = Some s /\ heap g !! s = Some session
    /\ connected session = true.
Proof.
  unfold connected_session. intros H.
  destruct (sessions g !! sessionId) as [s'|]; [|discriminate].
  destruct (heap g !! s') as [session|] eqn:E; [|discriminate].
  destruct (connected session) eqn:Hc; [|discriminate].
  injection H as <-. eauto.
Qed.

Lemma handleMessage_connected req res spawn_ok s g :
  connected_session (messageSessionId req) g = Some s ->
  handleMessage stringify req res spawn_ok g
  = processMessage stringify s (body req) res g.
Proof. intros E. unfold handleMessage. rewrite E. reflexivity. Qed.

Lemma handleMessage_spawn_failure req res g :
  connected_session (messageSessionId req) g = None ->
  handleMessage stringify req res false g
  = (g, [HttpReply res 500 creation_failed]).
Proof. intros E. unfold handleMessage. rewrite E. reflexivity. Qed.

Lemma handleMessage_created req res g :
  connected_session (messageSessionId req) g = None ->
  handleMessage stringify req res true g
  = (fst (processMessage stringify (next g) (body req) res
            (created (messageSessionId req) g)),
     Spawn (next g)
       :: snd (processMessage stringify (next g) (body req) res
                 (created (messageSessionId req) g))).
Proof.
  intros E. unfold handleMessage. rewrite E.
  unfold try_createSession, createSession. unfold_action.
  rewrite insert_insert_eq. fold (created (messageSessionId req) g).
  destruct (processMessage _ _ _ _ _) as [g2 e2]. reflexivity.
Qed.

Lemma created_lookup sessionId g :
  heap (created sessionId g) !! next g
  = Some (fresh_session sessionId (next g)).
Proof. cbn. apply lookup_insert_eq. Qed.

Lemma processMessage_notification s session message res g :
  heap g !! s = Some session ->
  id message = None ->
  processMessage stringify s message res g
  = (g, [StdinWrite (process session) (stringify message ++ [LF]);
         HttpReply res 202 EmptyObject]).
Proof.
  intros E Hi. unfold processMessage, sendToStdio. rewrite Hi.
  unfold_action. rewrite E. reflexivity.
Qed.

Definition intercepted (message : JSONRPCMessage) : Prop :=
  method message = Some (js "logging/setLevel")
  \/ method message = Some (js "resources/list").

(** The fixed result of an intercepted method. *)
Definition fixed_result (message : JSONRPCMessage) : json :=
  if decide (method message = Some (js "logging/setLevel")) then JObj []
  else JObj [(js "resources", JArr [])].

Lemma processMessage_intercepted s message res i g :
  id message = Some i ->
  intercepted message ->
  processMessage stringify s message res g
  = (g, [HttpReply res 200 (JsonRpc (result_envelope i (fixed_result message)))]).
Proof.
  intros Hi Hm. unfold processMessage, fixed_result. rewrite Hi.
  destruct (decide (method message = Some (js "logging/setLevel")));
    [reflexivity|].
  destruct (decide (method message = Some (js "resources/list")));
    [reflexivity|].
  destruct Hm; contradiction.
Qed.

(** A request that is not intercepted: the resolver is in the table when
    the message is written to the process, and the timer is set last. *)
Lemma processMessage_request s session message res i g :
  heap g !! s = Some session ->
  id message = Some i ->
  ~ intercepted message ->
  processMessage stringify s message res g
  = ((sendToStdio stringify s message ;;
      setTimeout {| t_session := s; t_id := i; t_resolve := res;
                    t_delay := 30000 |})
       (set_heap (<[s := set_pendingRequests (<[i := res]> (pendingRequests session))
                           session]> (heap g)) g))
  /\ processMessage stringify s message res g
     = (set_timers (<[next g := {| t_session := s; t_id := i; t_resolve := res;
                                   t_delay := 30000 |}]> (timers g))
          (set_next (S (next g))
             (set_heap (<[s := set_pendingRequests
                                 (<[i := res]> (pendingRequests session))
                                 session]> (heap g)) g)),
        [StdinWrite (process session) (stringify message ++ [LF]);
         SetTimeout (next g) 30000]).
Proof.
  intros E Hi Hm. unfold processMessage. rewrite Hi.
  destruct (decide (method message = Some (js "logging/setLevel"))) as [H|_];
    [destruct Hm; left; exact H|].
  destruct (decide (method message = Some (js "resources/list"))) as [H|_];
    [destruct Hm; right; exact H|].
  unfold sendToStdio, setTimeout. unfold_action.
  rewrite (alter_Some _ _ _ _ E), lookup_insert_eq. split; reflexivity.
Qed.

(** Every pending entry of [g'] was one of [g] already. *)
Definition no_new_pending (g g' : Gateway) : Prop :=
  forall s session' i k,
    heap g' !! s = Some session' -> pendingRequests session' !! i = Some k ->
    exists session,
      heap g !! s = Some session /\ pendingRequests session !! i = Some k.

Lemma no_new_pending_refl g : no_new_pending g g.
Proof. intros s session' i k H1 H2. eauto. Qed.

Lemma no_new_pending_created sessionId g :
  no_new_pending g (created sessionId g).
Proof.
  intros s session' i k H1 H2. cbn in H1.
  destruct (decide (next g = s)) as [<-|Hs].
  - rewrite lookup_insert_eq in H1. injection H1 as <-.
    cbn in H2. rewrite lookup_empty in H2. discriminate.
  - rewrite lookup_insert_ne in H1 by exact Hs. eauto.
Qed.

(** C5 (amended): a request for [logging/setLevel] or [resources/list] is
    never written to the process.  When a connected session is stored for
    its id, or none is and the process can be spawned, the request is
    answered at once with status 200 and the fixed result ([{}], or
    [{ resources: [] }]), and no resolver or timer is registered; when the
    session has to be created and [spawn] throws, the answer is HTTP 500. *)
Theorem interception_after_session req res spawn_ok i g :
  id (body req) = Some i ->
  intercepted (body req) ->
  let answer :=
    HttpReply res 200 (JsonRpc (result_envelope i (fixed_result (body req)))) in
  let out := handleMessage stringify req res spawn_ok g in
  (forall p data, ~ In (StdinWrite p data) (snd out))
  /\ no_new_pending g (fst out)
  /\ timers (fst out) = timers g
  /\ match connected_session (messageSessionId req) g with
     | Some s => out = (g, [answer])
     | None =>
         if spawn_ok
         then out = (created (messageSessionId req) g, [Spawn (next g); answer])
         else out = (g, [HttpReply res 500 creation_failed])
     end.
Proof.
  intros Hi Hm answer out. unfold out, answer.
  destruct (connected_session (messageSessionId req) g) as [s|] eqn:E.
  - rewrite (handleMessage_connected _ _ _ _ _ E).
    rewrite (processMessage_intercepted _ _ _ _ _ Hi Hm).
    split; [intros p data [H|[]]; discriminate|].
    split; [apply no_new_pending_refl|]. auto.
  - destruct spawn_ok.
    + rewrite (handleMessage_created _ _ _ E).
      rewrite (processMessage_intercepted _ _ _ _ _ Hi Hm).
      split; [intros p data [H|[H|[]]]; discriminate|].
      split; [apply no_new_pending_created|]. auto.
    + rewrite (handleMessage_spawn_failure _ _ _ E).
      split; [intros p data [H|[]]; discriminate|].
      split; [apply no_new_pending_refl|]. auto.
Qed.

(** C6 (amended): a message without id never registers a pending entry or
    a timer.  When a connected session is stored for its id, or none is and
    the process can be spawned, the message is written to the process of the
    session and the answer is status 202 with the body [{}], sent without
    waiting for the backend; when the session has to be created and [spawn]
    throws, nothing is written and the answer is HTTP 500. *)
Theorem notification_after_session req res spawn_ok g :
  id (body req) = None ->
  let out := handleMessage stringify req res spawn_ok g in
  let written p := StdinWrite p (stringify (body req) ++ [LF]) in
  no_new_pending g (fst out)
  /\ timers (fst out) = timers g
  /\ match connected_session (messageSessionId req) g with
     | Some s =>
         exists session,
           heap g !! s = Some session
           /\ out = (g, [written (process session);
                         HttpReply res 202 EmptyObject])
     | None =>
         if spawn_ok
         then out = (created (messageSessionId req) g,
                     [Spawn (next g); written (next g);
                      HttpReply res 202 EmptyObject])
         else out = (g, [HttpReply res 500 creation_failed])
     end.
Proof.
  intros Hi out written. unfold out, written.
  destruct (connected_session (messageSessionId req) g) as [s|] eqn:E.
  - destruct (connected_session_Some _ _ _ E) as (session & _ & Hs & _).
    rewrite (handleMessage_connected _ _ _ _ _ E).
    rewrite (processMessage_notification _ _ _ _ _ Hs Hi).
    split; [apply no_new_pending_refl|]. split; [reflexivity|]. eauto.
  - destruct spawn_ok.
    + rewrite (handleMessage_created _ _ _ E).
      rewrite (processMessage_notification _ _ _ _ _ (created_lookup _ _) Hi).
      split; [apply no_new_pending_created|]. auto.
    + rewrite (handleMessage_spawn_failure _ _ _ E).
      split; [apply no_new_pending_refl|]. auto.
Qed.



End Post.

(** ** Requests that create their session *)

Section Creation.
Variable stringify : JSONRPCMessage -> jsstring.

Lemma handleSSE_created req res g :
  sessions g !! sseSessionId req = None ->
  handleSSE req res true g
  = (fst (attach (next g) res (created (sseSessionId req) g)),
     Spawn (next g) :: snd (attach (next g) res (created (sseSessionId req) g))).
Proof.
  intros E. unfold handleSSE. rewrite E.
  unfold try_createSession, createSession. unfold_action.
  rewrite insert_insert_eq. fold (created (sseSessionId req) g).
  destruct (attach _ _ _) as [g2 e2]. reflexivity.
Qed.

(** [processMessage] changes the session object [s] in its pending table
    only, and leaves the other session objects and the store alone. *)
Lemma processMessage_frame s session message res g :
  heap g !! s = Some session ->
  let g1 := fst (processMessage stringify s message res g) in
  sessions g1 = sessions g
  /\ (forall j, j <> s -> heap g1 !! j = heap g !! j)
  /\ exists pending,
       heap g1 !! s = Some (set_pendingRequests pending session).
Proof.
  intros E g1. unfold g1. destruct (id message) as [i|] eqn:Hi.
  - assert (intercepted message ->
            fst (processMessage stringify s message res g) = g) as Hint
      by (intros Hm; rewrite (processMessage_intercepted stringify s _ res i g Hi Hm);
          reflexivity).
    assert (heap g !! s = Some (set_pendingRequests (pendingRequests session) session))
      as E' by (rewrite E; destruct session; reflexivity).
    destruct (decide (method message = Some (js "logging/setLevel")))
      as [H1|H1]; [rewrite Hint by (left; exact H1); eauto|].
    destruct (decide (method message = Some (js "resources/list")))
      as [H2|H2]; [rewrite Hint by (right; exact H2); eauto|].
    assert (~ intercepted message) as Hm by (intros [H|H]; contradiction).
    rewrite (proj2 (processMessage_request stringify s session _ res i g E Hi Hm)).
    cbn. split; [reflexivity|]. split.
    + intros j Hj. apply lookup_insert_ne. congruence.
    + eexists. apply lookup_insert_eq.
  - rewrite (processMessage_notification stringify s session _ res g E Hi).
    cbn. split; [reflexivity|]. split; [reflexivity|].
    exists (pendingRequests session). rewrite E. destruct session; reflexivity.
Qed.

(** The replies of [processMessage] are written on the response of the
    POST, with status 200 or 202. *)
Lemma processMessage_replies s session message res g r status b :
  heap g !! s = Some session ->
  In (HttpReply r status b) (snd (processMessage stringify s message res g)) ->
  r = res /\ (status = 200 \/ status = 202).
Proof.
  intros E. destruct (id message) as [i|] eqn:Hi.
  - assert (intercepted message ->
            In (HttpReply r status b)
               (snd (processMessage stringify s message res g)) ->
            r = res /\ (status = 200 \/ status = 202)) as Hint.
    { intros Hm. rewrite (processMessage_intercepted stringify s _ res i g Hi Hm).
      intros [H|[]]. injection H as <- <- _. auto. }
    destruct (decide (method message = Some (js "logging/setLevel")))
      as [H1|H1]; [apply Hint; left; exact H1|].
    destruct (decide (method message = Some (js "resources/list")))
      as [H2|H2]; [apply Hint; right; exact H2|].
    assert (~ intercepted message) as Hm by (intros [H|H]; contradiction).
    rewrite (proj2 (processMessage_request stringify s session _ res i g E Hi Hm)).
    intros [H|[H|[]]]; discriminate H.
  - rewrite (processMessage_notification stringify s session _ res g E Hi).
    intros [H|[H|[]]]; [discriminate H|]. injection H as <- <- _. auto.
Qed.

(** A POST that creates its session, followed by the 'error' event of the
    new process. *)
Lemma handleMessage_then_error req res g :
  connected_session (messageSessionId req) g = None ->
  (handleMessage stringify req res true ;; onError (next g)) g
  = (let out := processMessage stringify (next g) (body req) res
                  (created (messageSessionId req) g) in
     (set_heap (alter (set_connected false) (next g) (heap (fst out))) (fst out),
      Spawn (next g) :: snd out)).
Proof.
  intros E. unfold seq. rewrite (handleMessage_created stringify req res g E).
  cbn. rewrite app_nil_r. reflexivity.
Qed.

End Creation.

(** ** Requests nobody can answer any more

    The response [k] of a forwarded request is answered through its resolver
    only, and the resolver is reachable from the pending tables and from the
    timers only.  Once neither holds it, no later event answers [k]. *)

Section Orphans.
Variable parse : jsstring -> option JSONRPCMessage.
Variable stringify : JSONRPCMessage -> jsstring.
Variable k : nat.

Definition pending_free (session : Session) : Prop :=
  forall i, pendingRequests session !! i <> Some k.

Definition unreferenced (g : Gateway) : Prop :=
  (forall s session, heap g !! s = Some session -> pending_free session)
  /\ (forall t tm, timers g !! t = Some tm -> t_resolve tm <> k).

(** The effect neither calls the resolver of [k] nor answers on [k]. *)
Definition silent (e : Effect) : Prop :=
  match e with
  | HttpReply r _ _ => r <> k
  | Resolve r _ => r <> k
  | _ => True
  end.

(** The action keeps [k] unreferenced and silent. *)
Definition quiet (a : Action) : Prop :=
  forall g, unreferenced g ->
            unreferenced (fst (a g)) /\ Forall silent (snd (a g)).

Lemma quiet_skip : quiet skip.
Proof. intros g H. split; [exact H|constructor]. Qed.

Lemma quiet_emit e : silent e -> quiet (emit e).
Proof. intros He g H. split; [exact H|]. repeat constructor. exact He. Qed.

Lemma quiet_seq a b : quiet a -> quiet b -> quiet (a ;; b).
Proof.
  intros Ha Hb g H. unfold seq. specialize (Ha g H).
  destruct (a g) as [g1 e1]. destruct Ha as [H1 He1]. specialize (Hb g1 H1).
  destruct (b g1) as [g2 e2]. destruct Hb as [H2 He2].
  split; [exact H2|]. apply Forall_app. auto.
Qed.

Lemma quiet_for_of {A} (l : list A) body :
  (forall x, quiet (body x)) -> quiet (for_of l body).
Proof. intros H. induction l; simpl; auto using quiet_skip, quiet_seq. Qed.

Lemma quiet_with_session s body :
  (forall session, pending_free session -> quiet (body session)) ->
  quiet (with_session s body).
Proof.
  intros Hb g H. unfold with_session.
  destruct (heap g !! s) as [session|] eqn:E; [|apply quiet_skip, H].
  apply Hb; [|exact H]. destruct H as [H _]. exact (H s session E).
Qed.

Lemma quiet_assign s f :
  (forall session, pending_free session -> pending_free (f session)) ->
  quiet (assign s f).
Proof.
  intros Hf g [Hh Ht]. unfold assign, update. cbn [fst snd].
  split; [split|constructor]; cbn [heap timers set_heap]; [|exact Ht].
  intros r session Hr. apply lookup_alter_Some in Hr as [[-> (x & Hx & ->)]|[_ Hr]].
  - apply Hf. exact (Hh _ _ Hx).
  - exact (Hh _ _ Hr).
Qed.

Lemma quiet_store (f : gmap jsstring nat -> gmap jsstring nat) :
  quiet (update (fun g => set_sessions (f (sessions g)) g)).
Proof. intros g H. split; [exact H|constructor]. Qed.

Lemma quiet_resolve r response : r <> k -> quiet (resolve r response).
Proof.
  intros Hr. unfold resolve. apply quiet_seq; [apply quiet_emit, Hr|].
  intros g H. case_decide; cbn [fst snd].
  - split; [exact H|constructor].
  - split; [exact H|]. repeat constructor. exact Hr.
Qed.

Lemma quiet_handleStdioMessage s message :
  quiet (handleStdioMessage stringify s message).
Proof.
  unfold handleStdioMessage. apply quiet_seq; apply quiet_with_session.
  - intros session Hp. destruct (id message) as [i|]; [|apply quiet_skip].
    destruct (pendingRequests session !! i) as [r|] eqn:Hr; [|apply quiet_skip].
    apply quiet_seq.
    + apply quiet_assign. intros x _ j Hj. cbn in Hj.
      apply lookup_delete_Some in Hj as [_ Hj]. exact (Hp j Hj).
    + apply quiet_resolve. intros ->. exact (Hp i Hr).
  - intros session _. destruct (sseResponse session); [|apply quiet_skip].
    apply quiet_emit. exact I.
Qed.

Lemma quiet_handleStdioData s data :
  quiet (handleStdioData parse stringify s data).
Proof.
  unfold handleStdioData. apply quiet_with_session. intros session _.
  destruct (pop _) as [last_line lines]. apply quiet_seq.
  - apply quiet_assign. intros x Hx. exact Hx.
  - apply quiet_for_of. intros line. unfold handleLine.
    destruct (truthy _); [|apply quiet_skip].
    destruct (parse line); [apply quiet_handleStdioMessage|apply quiet_skip].
Qed.

Lemma quiet_onTimeout t : quiet (onTimeout t).
Proof.
  intros g H. unfold onTimeout.
  destruct (timers g !! t) as [tm|] eqn:Ht; [|apply quiet_skip, H].
  assert (t_resolve tm <> k) as Hr by (destruct H as [_ H]; exact (H t tm Ht)).
  refine (quiet_seq _ _ _ _ g H).
  - intros g' [Hh Htm]. split; [split|constructor]; [exact Hh|].
    intros t' tm' Ht'. cbn in Ht'. apply lookup_delete_Some in Ht' as [_ Ht'].
    exact (Htm _ _ Ht').
  - apply quiet_with_session. intros session Hp.
    destruct (pendingRequests session !! t_id tm); [|apply quiet_skip].
    apply quiet_seq; [|apply quiet_resolve, Hr].
    apply quiet_assign. intros x _ j Hj. cbn in Hj.
    apply lookup_delete_Some in Hj as [_ Hj]. exact (Hp j Hj).
Qed.

Lemma quiet_try_createSession sessionId spawn_ok body handler :
  (forall s, quiet (body s)) -> quiet handler ->
  quiet (try_createSession sessionId spawn_ok body handler).
Proof.
  intros Hb Hh g H. unfold try_createSession, createSession.
  destruct spawn_ok; [|exact (Hh g H)].
  set (g1 := set_sessions _ _).
  assert (unreferenced g1) as H1.
  { destruct H as [Hp Ht]. split; [|exact Ht]. intros r session Hr.
    cbn in Hr. apply lookup_insert_Some in Hr as [[_ <-]|[_ Hr]].
    - intros i. cbn. rewrite lookup_empty. discriminate.
    - exact (Hp _ _ Hr). }
  specialize (Hb (next g) g1 H1). destruct (body (next g) g1) as [g2 e2].
  destruct Hb as [H2 He2]. split; [exact H2|]. constructor; [exact I|exact He2].
Qed.

Lemma quiet_attach s res : quiet (attach s res).
Proof.
  unfold attach.
  repeat (apply quiet_seq; [first [apply quiet_emit; exact I | idtac]|]).
  - apply quiet_assign. intros x Hx. exact Hx.
  - intros g H. split; [exact H|constructor].
Qed.

Lemma quiet_handleSSE req res spawn_ok :
  res <> k -> quiet (handleSSE req res spawn_ok).
Proof.
  intros Hr g H. unfold handleSSE.
  destruct (sessions g !! sseSessionId req) as [s|]; [exact (quiet_attach s res g H)|].
  apply quiet_try_createSession; [| |exact H].
  - intros s. apply quiet_seq; [apply quiet_store|apply quiet_attach].
  - apply quiet_emit. exact Hr.
Qed.

Lemma quiet_sendToStdio s message : quiet (sendToStdio stringify s message).
Proof.
  unfold sendToStdio. apply quiet_with_session. intros session _.
  apply quiet_emit. exact I.
Qed.

Lemma quiet_setTimeout tm : t_resolve tm <> k -> quiet (setTimeout tm).
Proof.
  intros Hr g [Hp Ht]. unfold setTimeout. cbn [fst snd].
  split; [split|repeat constructor]; [exact Hp|].
  intros t tm' Ht'. cbn in Ht'. apply lookup_insert_Some in Ht' as [[_ <-]|[_ Ht']].
  - exact Hr.
  - exact (Ht _ _ Ht').
Qed.

Lemma quiet_processMessage s message res :
  res <> k -> quiet (processMessage stringify s message res).
Proof.
  intros Hr. unfold processMessage. destruct (id message) as [i|].
  - case_decide; [apply quiet_emit, Hr|].
    case_decide; [apply quiet_emit, Hr|].
    apply quiet_seq; [|apply quiet_seq].
    + apply quiet_assign. intros x Hx j Hj. cbn in Hj.
      apply lookup_insert_Some in Hj as [[_ Hj]|[_ Hj]]; [congruence|].
      exact (Hx j Hj).
    + apply quiet_sendToStdio.
    + apply quiet_setTimeout. exact Hr.
  - apply quiet_seq; [apply quiet_sendToStdio|apply quiet_emit, Hr].
Qed.

Lemma quiet_handleMessage req res spawn_ok :
  res <> k -> quiet (handleMessage stringify req res spawn_ok).
Proof.
  intros Hr g H. unfold handleMessage.
  destruct (connected_session _ g) as [s|];
    [exact (quiet_processMessage s (body req) res Hr g H)|].
  apply quiet_try_createSession; [| |exact H].
  - intros s. apply quiet_seq; [apply quiet_store|apply quiet_processMessage, Hr].
  - apply quiet_emit. exact Hr.
Qed.

Lemma quiet_onClose res : quiet (onClose res).
Proof.
  intros g H. unfold onClose.
  destruct (closeListeners g !! res) as [s|]; [|apply quiet_skip, H].
  apply quiet_with_session; [|exact H]. intros session _.
  case_decide; [|apply quiet_skip].
  apply quiet_assign. intros x Hx. exact Hx.
Qed.

Lemma quiet_onError s : quiet (onError s).
Proof. apply quiet_assign. intros x Hx. exact Hx. Qed.

Lemma quiet_onExit s : quiet (onExit s).
Proof.
  unfold onExit. apply quiet_with_session. intros session _.
  apply quiet_seq; [apply quiet_assign; intros x Hx; exact Hx|].
  apply (quiet_store (delete (session_id session))).
Qed.

Lemma quiet_close : quiet close.
Proof.
  intros g H. unfold close. apply quiet_seq; [| |exact H].
  - apply quiet_for_of. intros s. apply quiet_with_session. intros session _.
    apply quiet_emit. exact I.
  - apply (quiet_store (fun _ => ∅)).
Qed.

(** The event does not hand the response [k] to a handler. *)
Definition elsewhere (ev : Event) : Prop :=
  match ev with
  | GET _ res _ | POST _ res _ => res <> k
  | _ => True
  end.

Lemma quiet_step ev : elsewhere ev -> quiet (step parse stringify ev).
Proof.
  destruct ev; cbn [elsewhere step]; intros H;
    auto using quiet_handleSSE, quiet_handleMessage, quiet_onClose,
      quiet_handleStdioData, quiet_skip, quiet_onError, quiet_onExit,
      quiet_onTimeout, quiet_close.
Qed.

(** A response that no table and no timer refers to stays unanswered. *)
Lemma unreferenced_forever evs g :
  unreferenced g -> Forall elsewhere evs ->
  unreferenced (fst (run parse stringify evs g))
  /\ Forall silent (snd (run parse stringify evs g)).
Proof.
  intros H Hevs. revert g H. unfold run.
  induction Hevs as [|ev evs Hev _ IH]; intros g H; [apply quiet_skip, H|].
  cbn [for_of]. apply quiet_seq; [apply quiet_step, Hev|exact IH|exact H].
Qed.

End Orphans.

(** ** A response is written at most once

    After the POST that carries it, the response [k] is written through the
    promise only, and a promise settles once. *)

Section Once.
Variable parse : jsstring -> option JSONRPCMessage.
Variable stringify : JSONRPCMessage -> jsstring.
Variable k : nat.

Definition is_reply (e : Effect) : bool :=
  match e with
  | HttpReply r _ _ => bool_decide (r = k)
  | _ => false
  end.

(** The number of replies written on [k]. *)
Definition replies (es : list Effect) : nat :=
  List.length (List.filter is_reply es).

(** 1 once the promise of [k] is settled. *)
Definition spent (g : Gateway) : nat :=
  if decide (k ∈ settled g) then 1%nat else 0%nat.

(** Every reply on [k] settles its promise, which was not settled before. *)
Definition once (a : Action) : Prop :=
  forall g, (spent g + replies (snd (a g)) <= spent (fst (a g)))%nat.

Lemma replies_app es1 es2 :
  replies (es1 ++ es2) = (replies es1 + replies es2)%nat.
Proof. unfold replies. rewrite List.filter_app, List.length_app. reflexivity. Qed.

Lemma once_same (a : Action) :
  (forall g, settled (fst (a g)) = settled g /\ replies (snd (a g)) = 0%nat) ->
  once a.
Proof.
  intros H g. destruct (H g) as [Hs ->]. unfold spent. rewrite Hs. lia.
Qed.

Lemma once_seq a b : once a -> once b -> once (a ;; b).
Proof.
  intros Ha Hb g. unfold seq. specialize (Ha g).
  destruct (a g) as [g1 e1]. specialize (Hb g1).
  destruct (b g1) as [g2 e2]. cbn [fst snd] in *. rewrite replies_app. lia.
Qed.

Lemma once_for_of {A} (l : list A) body :
  (forall x, once (body x)) -> once (for_of l body).
Proof.
  intros H. induction l; simpl; [apply once_same; auto|].
  apply once_seq; auto.
Qed.

Lemma once_with_session s body :
  (forall session, once (body session)) -> once (with_session s body).
Proof.
  intros H g. unfold with_session.
  destruct (heap g !! s) as [session|]; [apply H|cbn; lia].
Qed.

Lemma once_emit e : is_reply e = false -> once (emit e).
Proof.
  intros He. apply once_same. intros g. split; [reflexivity|].
  unfold replies. cbn. rewrite He. reflexivity.
Qed.

Lemma once_reply res status b : res <> k -> once (emit (HttpReply res status b)).
Proof. intros H. apply once_emit. cbn. apply bool_decide_eq_false. exact H. Qed.

Lemma once_assign s f : once (assign s f).
Proof. apply once_same. auto. Qed.

Lemma once_resolve r response : once (resolve r response).
Proof.
  intros g. unfold resolve. unfold_action. unfold spent, replies.
  destruct (decide (r ∈ settled g)) as [Hr|Hr]; cbn.
  - lia.
  - destruct (decide (r = k)) as [->|Hrk].
    + rewrite bool_decide_eq_true_2 by reflexivity. cbn.
      rewrite (decide_False (P := k ∈ settled g)) by exact Hr.
      rewrite decide_True by set_solver. lia.
    + rewrite bool_decide_eq_false_2 by exact Hrk. cbn.
      destruct (decide (k ∈ settled g)) as [Hk|Hk].
      * rewrite decide_True by set_solver. lia.
      * lia.
Qed.

Lemma once_try_createSession sessionId spawn_ok body handler :
  (forall s, once (body s)) -> once handler ->
  once (try_createSession sessionId spawn_ok body handler).
Proof.
  intros Hb Hh g. unfold try_createSession, createSession.
  destruct spawn_ok; [|exact (Hh g)].
  set (g1 := set_sessions _ _). specialize (Hb (next g) g1).
  destruct (body (next g) g1) as [g2 e2]. cbn [fst snd] in *.
  change (spent g) with (spent g1). exact Hb.
Qed.

Lemma once_handleStdioMessage s message :
  once (handleStdioMessage stringify s message).
Proof.
  unfold handleStdioMessage.
  apply once_seq; apply once_with_session; intros session.
  - destruct (id message) as [i|]; [|apply once_same; auto].
    destruct (pendingRequests session !! i); [|apply once_same; auto].
    apply once_seq; [apply once_assign|apply once_resolve].
  - destruct (sseResponse session); [apply once_emit|apply once_same]; auto.
Qed.

Lemma once_attach s res : once (attach s res).
Proof.
  unfold attach.
  repeat (apply once_seq; [first [apply once_emit; reflexivity | idtac]|]).
  - apply once_assign.
  - apply once_same. auto.
Qed.

Lemma once_processMessage s message res :
  res <> k -> once (processMessage stringify s message res).
Proof.
  intros Hr. unfold processMessage. destruct (id message) as [i|].
  - case_decide; [apply once_reply, Hr|].
    case_decide; [apply once_reply, Hr|].
    apply once_seq; [apply once_assign|apply once_seq].
    + apply once_with_session. intros session. apply once_emit. reflexivity.
    + apply once_same. auto.
  - apply once_seq; [|apply once_reply, Hr].
    apply once_with_session. intros session. apply once_emit. reflexivity.
Qed.

Lemma once_step ev : elsewhere k ev -> once (step parse stringify ev).
Proof.
  destruct ev; cbn [elsewhere step]; intros Hev.
  - intros g. unfold handleSSE.
    destruct (sessions g !! _); [apply once_attach|].
    apply once_try_createSession.
    + intros s. apply once_seq; [apply once_same; auto|apply once_attach].
    + apply once_reply, Hev.
  - intros g. unfold handleMessage.
    destruct (connected_session _ g); [apply once_processMessage, Hev|].
    apply once_try_createSession.
    + intros s. apply once_seq; [apply once_same; auto|].
      apply once_processMessage, Hev.
    + apply once_reply, Hev.
  - intros g. unfold onClose.
    destruct (closeListeners g !! res); [|cbn; lia].
    apply once_with_session. intros session.
    case_decide; [apply once_assign|apply once_same; auto].
  - unfold handleStdioData. apply once_with_session. intros session.
    destruct (pop _) as [last_line lines].
    apply once_seq; [apply once_assign|]. apply once_for_of. intros line.
    unfold handleLine. destruct (truthy _); [|apply once_same; auto].
    destruct (parse line);
      [apply once_handleStdioMessage|apply once_same; auto].
  - apply once_same. auto.
  - apply once_assign.
  - unfold onExit. apply once_with_session. intros session.
    apply once_seq; [apply once_assign|apply once_same; auto].
  - intros g. unfold onTimeout. destruct (timers g !! t) as [tm|]; [|cbn; lia].
    refine (once_seq _ _ _ _ g); [apply once_same; auto|].
    apply once_with_session. intros session.
    destruct (pendingRequests session !! t_id tm); [|apply once_same; auto].
    apply once_seq; [apply once_assign|apply once_resolve].
  - intros g. unfold close. refine (once_seq _ _ _ _ g).
    + apply once_for_of. intros s. apply once_with_session. intros session.
      apply once_emit. reflexivity.
    + apply once_same. auto.
Qed.

(** X9: whatever the events that follow the POST of a request, at most one
    reply is written on its response: a reply of the backend and the timeout
    error never both reach it. *)
Theorem answered_at_most_once evs g :
  Forall (elsewhere k) evs ->
  (replies (snd (run parse stringify evs g)) <= 1)%nat.
Proof.
  intros Hevs.
  assert (once (run parse stringify evs)) as H.
  { unfold run. induction Hevs as [|ev evs Hev _ IH];
      [apply once_same; auto|].
    cbn [for_of]. apply once_seq; [apply once_step, Hev|exact IH]. }
  specialize (H g). unfold spent in H.
  repeat case_decide; lia.
Qed.

End Once.

(** ** Well-formed states

    What every state the gateway can reach satisfies: names at or above the
    allocator are unused, a stored id is not the empty string and leads to a
    session object that carries this id, a timer waits 30000 ms on an
    existing session object, and every entry of a pending table has a timer
    set for the same session, id and resolver. *)

Definition fresh_names (g : Gateway) : Prop :=
  forall r, (next g <= r)%nat -> heap g !! r = None /\ timers g !! r = None.

Definition store_consistent (g : Gateway) : Prop :=
  forall sessionId s,
    sessions g !! sessionId = Some s ->
    truthy sessionId = true
    /\ exists session,
         heap g !! s = Some session /\ session_id session = sessionId.

Definition timers_sound (g : Gateway) : Prop :=
  forall t tm,
    timers g !! t = Some tm ->
    t_delay tm = 30000 /\ is_Some (heap g !! t_session tm).

Definition pending_timed (g : Gateway) : Prop :=
  forall s session i k,
    heap g !! s = Some session -> pendingRequests session !! i = Some k ->
    exists t,
      timers g !! t
      = Some {| t_session := s; t_id := i; t_resolve := k; t_delay := 30000 |}.

Definition well_formed (g : Gateway) : Prop :=
  fresh_names g /\ store_consistent g /\ timers_sound g /\ pending_timed g.

Ltac well_formed_parts :=
  unfold well_formed, fresh_names, store_consistent, timers_sound, pending_timed;
  split; [|split; [|split]]; cbn.

Lemma well_formed_new : well_formed new_gateway.
Proof.
  well_formed_parts; intros *; rewrite ?lookup_empty; try discriminate; auto.
Qed.

(** A session object that exists is named below the allocator. *)
Lemma well_formed_below g s session :
  well_formed g -> heap g !! s = Some session -> (s < next g)%nat.
Proof.
  intros (Hf & _) Hs. destruct (Nat.lt_ge_cases s (next g)) as [H|H]; [exact H|].
  destruct (Hf s H) as [Hn _]. congruence.
Qed.

(** The session object [s] changes, keeping its id and adding no entry to
    its pending table. *)
Lemma well_formed_modify g s session session' :
  well_formed g ->
  heap g !! s = Some session ->
  session_id session' = session_id session ->
  (forall i k, pendingRequests session' !! i = Some k ->
               pendingRequests session !! i = Some k) ->
  well_formed (set_heap (<[s := session']> (heap g)) g).
Proof.
  intros (Hf & Hst & Ht & Hp) Hs Hid Hsub. well_formed_parts.
  - intros r H. destruct (Hf r H) as [Hr Hr']. split; [|exact Hr'].
    rewrite lookup_insert_ne; [exact Hr|congruence].
  - intros sid s0 H. destruct (Hst sid s0 H) as (Hk & x & Hx & Hxid).
    split; [exact Hk|]. destruct (decide (s = s0)) as [<-|Hne].
    + exists session'. rewrite lookup_insert_eq. split; [reflexivity|]. congruence.
    + exists x. rewrite lookup_insert_ne by exact Hne. auto.
  - intros t tm H. destruct (Ht t tm H) as [Hd Hx]. split; [exact Hd|].
    apply lookup_insert_is_Some'. auto.
  - intros s0 x i k Hx Hk. destruct (decide (s = s0)) as [<-|Hne].
    + rewrite lookup_insert_eq in Hx. injection Hx as <-.
      exact (Hp s session i k Hs (Hsub i k Hk)).
    + rewrite lookup_insert_ne in Hx by exact Hne. exact (Hp s0 x i k Hx Hk).
Qed.

(** The store changes to entries that were there or that lead to a session
    object with the id of the entry. *)
Lemma well_formed_store (g : Gateway) (m : gmap jsstring nat) :
  well_formed g ->
  (forall sessionId s,
      m !! sessionId = Some s ->
      sessions g !! sessionId = Some s
      \/ truthy sessionId = true
         /\ exists session,
              heap g !! s = Some session /\ session_id session = sessionId) ->
  well_formed (set_sessions m g).
Proof.
  intros (Hf & Hst & Ht & Hp) Hm. well_formed_parts.
  - exact Hf.
  - intros sid s H. destruct (Hm sid s H) as [H'|H']; [exact (Hst sid s H')|exact H'].
  - exact Ht.
  - exact Hp.
Qed.

(** The state in which [createSession] leaves the gateway. *)
Lemma well_formed_createSession sessionId g :
  well_formed g ->
  truthy sessionId = true ->
  well_formed
    (set_sessions (<[sessionId := next g]> (sessions g))
       (set_heap (<[next g := fresh_session sessionId (next g)]> (heap g))
          (set_next (S (next g)) g))).
Proof.
  intros (Hf & Hst & Ht & Hp) Hid. well_formed_parts.
  - intros r H. rewrite lookup_insert_ne by lia. apply Hf. lia.
  - intros sid s H. apply lookup_insert_Some in H as [[<- <-]|[Hne H]].
    + split; [exact Hid|].
      exists (fresh_session sessionId (next g)). rewrite lookup_insert_eq. auto.
    + destruct (Hst sid s H) as (Hk & x & Hx & Hxid). split; [exact Hk|].
      exists x. rewrite lookup_insert_ne; [auto|].
      intros <-. destruct (Hf (next g) (le_n _)) as [Hn _]. congruence.
  - intros t tm H. destruct (Ht t tm H) as [Hd Hx]. split; [exact Hd|].
    apply lookup_insert_is_Some'. auto.
  - intros s x i k Hx Hk. apply lookup_insert_Some in Hx as [[<- <-]|[Hne Hx]].
    + cbn in Hk. rewrite lookup_empty in Hk. discriminate.
    + exact (Hp s x i k Hx Hk).
Qed.

(** The state in which the registration of a request leaves the gateway. *)
Lemma well_formed_register g s session i res :
  well_formed g ->
  heap g !! s = Some session ->
  well_formed
    (set_timers (<[next g := {| t_session := s; t_id := i; t_resolve := res;
                                t_delay := 30000 |}]> (timers g))
       (set_next (S (next g))
          (set_heap (<[s := set_pendingRequests
                              (<[i := res]> (pendingRequests session))
                              session]> (heap g)) g))).
Proof.
  intros Hwf Hs. pose proof (well_formed_below g s session Hwf Hs) as Hlt.
  destruct Hwf as (Hf & Hst & Ht & Hp). well_formed_parts.
  - intros r H. rewrite !lookup_insert_ne by lia. apply Hf. lia.
  - intros sid s0 H. destruct (Hst sid s0 H) as (Hk & x & Hx & Hxid).
    split; [exact Hk|]. destruct (decide (s = s0)) as [<-|Hne].
    + eexists. rewrite lookup_insert_eq. split; [reflexivity|]. cbn. congruence.
    + exists x. rewrite lookup_insert_ne by exact Hne. auto.
  - intros t tm H. apply lookup_insert_Some in H as [[_ <-]|[_ H]]; cbn.
    + split; [reflexivity|]. rewrite lookup_insert_eq. eauto.
    + destruct (Ht t tm H) as [Hd Hx]. split; [exact Hd|].
      apply lookup_insert_is_Some'. auto.
  - intros s0 x i0 k Hx Hk.
    assert (forall t tm, timers g !! t = Some tm ->
              <[next g := {| t_session := s; t_id := i; t_resolve := res;
                             t_delay := 30000 |}]> (timers g) !! t = Some tm)
      as Hold.
    { intros t tm H. rewrite lookup_insert_ne; [exact H|].
      intros <-. destruct (Hf (next g) (le_n _)) as [_ Hn]. congruence. }
    destruct (decide (s = s0)) as [<-|Hne].
    + rewrite lookup_insert_eq in Hx. injection Hx as <-. cbn in Hk.
      apply lookup_insert_Some in Hk as [[<- <-]|[_ Hk]].
      * exists (next g). apply lookup_insert_eq.
      * destruct (Hp s session i0 k Hs Hk) as [t H]. exists t. exact (Hold _ _ H).
    + rewrite lookup_insert_ne in Hx by exact Hne.
      destruct (Hp s0 x i0 k Hx Hk) as [t H]. exists t. exact (Hold _ _ H).
Qed.

(** The state in which the callback of the timer [t] leaves the gateway:
    the timer is gone, and so is the entry of its id. *)
Lemma well_formed_timeout g t tm session :
  well_formed g ->
  timers g !! t = Some tm ->
  heap g !! t_session tm = Some session ->
  well_formed
    (set_heap (<[t_session tm :=
                   set_pendingRequests (delete (t_id tm) (pendingRequests session))
                     session]> (heap g))
       (set_timers (delete t (timers g)) g)).
Proof.
  intros (Hf & Hst & Ht & Hp) Htm Hs. well_formed_parts.
  - intros r H. destruct (Hf r H) as [Hr Hr']. split.
    + rewrite lookup_insert_ne; [exact Hr|congruence].
    + apply lookup_delete_None. right. exact Hr'.
  - intros sid s0 H. destruct (Hst sid s0 H) as (Hk & x & Hx & Hxid).
    split; [exact Hk|]. destruct (decide (t_session tm = s0)) as [<-|Hne].
    + eexists. rewrite lookup_insert_eq. split; [reflexivity|]. cbn. congruence.
    + exists x. rewrite lookup_insert_ne by exact Hne. auto.
  - intros t0 tm0 H. apply lookup_delete_Some in H as [_ H].
    destruct (Ht _ _ H) as [Hd Hx]. split; [exact Hd|].
    apply lookup_insert_is_Some'. right. exact Hx.
  - intros s0 x i k Hx Hk. destruct (decide (t_session tm = s0)) as [<-|Hne].
    + rewrite lookup_insert_eq in Hx. injection Hx as <-. cbn in Hk.
      apply lookup_delete_Some in Hk as [Hi Hk].
      destruct (Hp _ session i k Hs Hk) as [t0 H0]. exists t0.
      rewrite lookup_delete_ne; [exact H0|]. intros <-.
      rewrite Htm in H0. injection H0 as E.
      pose proof (f_equal t_id E) as E'. cbn in E'. congruence.
    + rewrite lookup_insert_ne in Hx by exact Hne.
      destruct (Hp s0 x i k Hx Hk) as [t0 H0]. exists t0.
      rewrite lookup_delete_ne; [exact H0|]. intros <-.
      rewrite Htm in H0. injection H0 as E.
      pose proof (f_equal t_session E) as E'. cbn in E'. congruence.
Qed.

(** A timer whose id is no longer pending leaves alone. *)
Lemma well_formed_expire g t tm session :
  well_formed g ->
  timers g !! t = Some tm ->
  heap g !! t_session tm = Some session ->
  pendingRequests session !! t_id tm = None ->
  well_formed (set_timers (delete t (timers g)) g).
Proof.
  intros (Hf & Hst & Ht & Hp) Htm Hs Hnone. well_formed_parts.
  - intros r H. destruct (Hf r H) as [Hr Hr']. split; [exact Hr|].
    apply lookup_delete_None. right. exact Hr'.
  - exact Hst.
  - intros t0 tm0 H. apply lookup_delete_Some in H as [_ H]. exact (Ht _ _ H).
  - intros s0 x i k Hx Hk. destruct (Hp s0 x i k Hx Hk) as [t0 H0]. exists t0.
    rewrite lookup_delete_ne; [exact H0|]. intros <-.
    rewrite Htm in H0. injection H0 as E.
    pose proof (f_equal t_session E) as E1. pose proof (f_equal t_id E) as E2.
    cbn in E1, E2. rewrite E1 in Hs. rewrite E2 in Hnone. congruence.
Qed.

(** ** What a run of the gateway can do

    Every effect of a run is accounted for by an event of the run: a reply
    answers a request posted on the same response, a stream is written only
    where a GET opened it, the backend reads only what was posted.  The
    states of a run are well formed, their timers belong to posted requests
    and their streams to GET requests. *)

Section History.
Variable parse : jsstring -> option JSONRPCMessage.
Variable stringify : JSONRPCMessage -> jsstring.

(** The response objects of the GET requests of a run, in order. *)
Definition streams (evs : list Event) : list nat :=
  flat_map (fun ev => match ev with GET _ res _ => [res] | _ => [] end) evs.

(** [req] was posted and is to be answered on the response [k]. *)
Definition posted (seen : list Event) (k : nat) (req : Request) : Prop :=
  exists spawn_ok, In (POST req k spawn_ok) seen.

(** A request with the id [i] was posted and is to be answered on [k]. *)
Definition requested (seen : list Event) (k : nat) (i : RpcId) : Prop :=
  exists req, posted seen k req /\ id (body req) = Some i.

Definition timers_posted (seen : list Event) (g : Gateway) : Prop :=
  forall t tm,
    timers g !! t = Some tm -> requested seen (t_resolve tm) (t_id tm).

(** The stream of a session is the response of a GET, and the close
    listener of this response, when every GET has a response of its own,
    belongs to the session. *)
Definition sinks_listened (seen : list Event) (g : Gateway) : Prop :=
  forall s session r,
    heap g !! s = Some session -> sseResponse session = Some r ->
    In r (streams seen)
    /\ (NoDup (streams seen) -> closeListeners g !! r = Some s).

Definition Inv (seen : list Event) (g : Gateway) : Prop :=
  well_formed g /\ timers_posted seen g /\ sinks_listened seen g.

(** What a reply on the response [k] answers. *)
Definition answers (seen : list Event) (k : nat) (status : Z) (b : Body) : Prop :=
  match b with
  | JsonRpc response =>
      match id response with
      | Some i => status = 200 /\ requested seen k i
      | None => status = 500 /\ exists req, posted seen k req
      end
  | EmptyObject =>
      status = 202 /\ exists req, posted seen k req /\ id (body req) = None
  | ErrorObject _ => status = 500 /\ In k (streams seen)
  end.

Definition sound (seen : list Event) (e : Effect) : Prop :=
  match e with
  | Spawn _ =>
      exists req res, In (GET req res true) seen \/ In (POST req res true) seen
  | StdinWrite _ data =>
      exists k req,
        posted seen k req /\ data = stringify (body req) ++ [LF]
        /\ (id (body req) = None \/ ~ intercepted (body req))
  | SetHeader res _ _ => In res (streams seen)
  | SseWrite res data =>
      In res (streams seen)
      /\ (data = js ":ok" ++ [LF; LF]
          \/ exists message, data = sse_frame stringify message)
  | HttpReply k status b => answers seen k status b
  | Resolve k response => exists i, id response = Some i /\ requested seen k i
  | SetTimeout _ delay => delay = 30000
  | Kill _ => In Shutdown seen
  end.

Definition keeps (seen : list Event) (a : Action) : Prop :=
  forall g,
    Inv seen g -> Inv seen (fst (a g)) /\ Forall (sound seen) (snd (a g)).

Lemma streams_app evs1 evs2 : streams (evs1 ++ evs2) = streams evs1 ++ streams evs2.
Proof. apply flat_map_app. Qed.

Lemma posted_app seen more k req : posted seen k req -> posted (seen ++ more) k req.
Proof. intros [ok H]. exists ok. apply in_or_app. auto. Qed.

Lemma requested_app seen more k i :
  requested seen k i -> requested (seen ++ more) k i.
Proof. intros (req & H & Hi). exists req. split; [apply posted_app, H|exact Hi]. Qed.

Lemma streams_In_app seen more r :
  In r (streams seen) -> In r (streams (seen ++ more)).
Proof. rewrite streams_app. intros H. apply in_or_app. auto. Qed.

Lemma sound_app seen more e : sound seen e -> sound (seen ++ more) e.
Proof.
  destruct e as [p|p data|res name value|res data|res status body|k response
                |t delay|p]; cbn.
  - intros (req & res & [H|H]); exists req, res; [left|right]; apply in_or_app; auto.
  - intros (k & req & H & Hd & Hm). exists k, req. split; [apply posted_app, H|auto].
  - apply streams_In_app.
  - intros [H Hd]. split; [apply streams_In_app, H|exact Hd].
  - destruct body as [response| |e]; cbn.
    + destruct (id response) as [i|].
      * intros [Hs H]. split; [exact Hs|apply requested_app, H].
      * intros (Hs & req & H). split; [exact Hs|]. exists req. apply posted_app, H.
    + intros (Hs & req & H & Hi). split; [exact Hs|]. exists req.
      split; [apply posted_app, H|exact Hi].
    + intros [Hs H]. split; [exact Hs|apply streams_In_app, H].
  - intros (i & Hi & H). exists i. split; [exact Hi|apply requested_app, H].
  - auto.
  - intros H. apply in_or_app. auto.
Qed.

(** The invariant of a state holds for a longer history as well. *)
Lemma Inv_app seen more g : Inv seen g -> Inv (seen ++ more) g.
Proof.
  intros (Hwf & Ht & Hs). split; [exact Hwf|]. split.
  - intros t tm H. apply requested_app, (Ht t tm H).
  - intros s session r E Hr. destruct (Hs s session r E Hr) as [Hin Hl].
    split; [apply streams_In_app, Hin|].
    rewrite streams_app. intros Hnd. apply NoDup_app in Hnd as (Hnd & _).
    exact (Hl Hnd).
Qed.

(** *** State changes *)

Lemma Inv_modify seen g s session session' :
  Inv seen g ->
  heap g !! s = Some session ->
  session_id session' = session_id session ->
  (forall i k, pendingRequests session' !! i = Some k ->
               pendingRequests session !! i = Some k) ->
  sseResponse session' = sseResponse session \/ sseResponse session' = None ->
  Inv seen (set_heap (<[s := session']> (heap g)) g).
Proof.
  intros (Hwf & Ht & Hs) E Hid Hsub Hsink.
  split; [exact (well_formed_modify g s session session' Hwf E Hid Hsub)|].
  split; [exact Ht|].
  intros s0 x r Hx Hr. cbn in Hx |- *.
  destruct (decide (s = s0)) as [<-|Hne].
  - rewrite lookup_insert_eq in Hx. injection Hx as <-.
    destruct Hsink as [Hsink|Hsink]; [|congruence].
    apply (Hs s session r E). congruence.
  - rewrite lookup_insert_ne in Hx by exact Hne. exact (Hs s0 x r Hx Hr).
Qed.

Lemma Inv_store (seen : list Event) (g : Gateway) (m : gmap jsstring nat) :
  Inv seen g ->
  (forall sessionId s,
      m !! sessionId = Some s ->
      sessions g !! sessionId = Some s
      \/ truthy sessionId = true
         /\ exists session,
              heap g !! s = Some session /\ session_id session = sessionId) ->
  Inv seen (set_sessions m g).
Proof.
  intros (Hwf & Ht & Hs) Hm.
  split; [exact (well_formed_store g m Hwf Hm)|]. split; [exact Ht|exact Hs].
Qed.

Lemma Inv_created seen sessionId g :
  Inv seen g -> truthy sessionId = true -> Inv seen (created sessionId g).
Proof.
  intros (Hwf & Ht & Hs) Hid.
  split; [exact (well_formed_createSession sessionId g Hwf Hid)|].
  split; [exact Ht|].
  intros s x r Hx Hr. cbn in Hx |- *.
  apply lookup_insert_Some in Hx as [[<- <-]|[Hne Hx]]; [discriminate|].
  exact (Hs s x r Hx Hr).
Qed.

Lemma Inv_register seen g s session i res :
  Inv seen g ->
  heap g !! s = Some session ->
  requested seen res i ->
  Inv seen
    (set_timers (<[next g := {| t_session := s; t_id := i; t_resolve := res;
                                t_delay := 30000 |}]> (timers g))
       (set_next (S (next g))
          (set_heap (<[s := set_pendingRequests
                              (<[i := res]> (pendingRequests session))
                              session]> (heap g)) g))).
Proof.
  intros (Hwf & Ht & Hs) E Hreq.
  split; [exact (well_formed_register g s session i res Hwf E)|]. split.
  - intros t tm H. cbn in H.
    apply lookup_insert_Some in H as [[_ <-]|[_ H]]; [exact Hreq|exact (Ht t tm H)].
  - intros s0 x r Hx Hr. cbn in Hx |- *.
    destruct (decide (s = s0)) as [<-|Hne].
    + rewrite lookup_insert_eq in Hx. injection Hx as <-.
      exact (Hs s session r E Hr).
    + rewrite lookup_insert_ne in Hx by exact Hne. exact (Hs s0 x r Hx Hr).
Qed.

Lemma Inv_timeout seen g t tm session :
  Inv seen g ->
  timers g !! t = Some tm ->
  heap g !! t_session tm = Some session ->
  Inv seen
    (set_heap (<[t_session tm :=
                   set_pendingRequests (delete (t_id tm) (pendingRequests session))
                     session]> (heap g))
       (set_timers (delete t (timers g)) g)).
Proof.
  intros (Hwf & Ht & Hs) Htm E.
  split; [exact (well_formed_timeout g t tm session Hwf Htm E)|]. split.
  - intros t0 tm0 H. cbn in H. apply lookup_delete_Some in H as [_ H].
    exact (Ht t0 tm0 H).
  - intros s0 x r Hx Hr. cbn in Hx |- *.
    destruct (decide (t_session tm = s0)) as [<-|Hne].
    + rewrite lookup_insert_eq in Hx. injection Hx as <-.
      exact (Hs _ session r E Hr).
    + rewrite lookup_insert_ne in Hx by exact Hne. exact (Hs s0 x r Hx Hr).
Qed.

Lemma Inv_expire seen g t tm session :
  Inv seen g ->
  timers g !! t = Some tm ->
  heap g !! t_session tm = Some session ->
  pendingRequests session !! t_id tm = None ->
  Inv seen (set_timers (delete t (timers g)) g).
Proof.
  intros (Hwf & Ht & Hs) Htm E Hnone.
  split; [exact (well_formed_expire g t tm session Hwf Htm E Hnone)|]. split.
  - intros t0 tm0 H. cbn in H. apply lookup_delete_Some in H as [_ H].
    exact (Ht t0 tm0 H).
  - exact Hs.
Qed.

(** The state in which [attach] leaves the gateway. *)
Lemma Inv_attach seen req res spawn_ok g s session :
  Inv seen g ->
  heap g !! s = Some session ->
  Inv (seen ++ [GET req res spawn_ok])
    (set_closeListeners (<[res := s]> (closeListeners g))
       (set_heap (<[s := set_sseResponse (Some res) session]> (heap g)) g)).
Proof.
  intros HI E.
  assert (Inv seen (set_heap (<[s := set_sseResponse None session]> (heap g)) g))
    as (Hwf & Ht & Hs).
  { apply (Inv_modify seen g s session); auto. }
  destruct HI as (Hwf0 & _ & Hs0).
  split; [|split].
  - exact (well_formed_modify g s session (set_sseResponse (Some res) session)
             Hwf0 E eq_refl (fun i k H => H)).
  - intros t tm H. apply requested_app, (Ht t tm H).
  - intros s0 x r Hx Hr. cbn in Hx |- *. rewrite streams_app. cbn.
    destruct (decide (s = s0)) as [<-|Hne].
    + rewrite lookup_insert_eq in Hx. injection Hx as <-. cbn in Hr.
      injection Hr as <-. split; [apply in_or_app; right; left; reflexivity|].
      intros _. apply lookup_insert_eq.
    + rewrite lookup_insert_ne in Hx by exact Hne.
      destruct (Hs0 s0 x r Hx Hr) as [Hin Hl].
      split; [apply in_or_app; left; exact Hin|].
      intros Hnd. apply NoDup_app in Hnd as (Hnd & Hdisj & _).
      rewrite lookup_insert_ne; [exact (Hl Hnd)|].
      intros <-. apply (Hdisj res); [apply list_elem_of_In, Hin|].
      apply list_elem_of_here.
Qed.

(** *** Handlers *)

Ltac each_effect :=
  repeat first [apply List.Forall_nil | apply List.Forall_cons].

Lemma keeps_skip seen : keeps seen skip.
Proof. intros g H. split; [exact H|constructor]. Qed.

Lemma keeps_seq seen a b : keeps seen a -> keeps seen b -> keeps seen (a ;; b).
Proof.
  intros Ha Hb g H. unfold seq. destruct (Ha g H) as [H1 F1].
  destruct (a g) as [g1 e1]. destruct (Hb g1 H1) as [H2 F2].
  destruct (b g1) as [g2 e2]. split; [exact H2|]. apply Forall_app. auto.
Qed.

Lemma keeps_for_of {A} seen (l : list A) body :
  (forall x, keeps seen (body x)) -> keeps seen (for_of l body).
Proof.
  intros H. induction l; simpl; [apply keeps_skip|]. apply keeps_seq; auto.
Qed.

Lemma keeps_with_session seen s body :
  (forall g session,
      heap g !! s = Some session -> Inv seen g ->
      Inv seen (fst (body session g))
      /\ Forall (sound seen) (snd (body session g))) ->
  keeps seen (with_session s body).
Proof.
  intros H g HI. unfold with_session.
  destruct (heap g !! s) as [session|] eqn:E; [exact (H g session E HI)|].
  split; [exact HI|constructor].
Qed.

Lemma keeps_emit seen e : sound seen e -> keeps seen (emit e).
Proof. intros He g HI. split; [exact HI|]. each_effect. exact He. Qed.

Lemma keeps_resolve seen k response i :
  id response = Some i -> requested seen k i ->
  keeps seen (resolve k response).
Proof.
  intros Hi Hreq g HI. unfold resolve. unfold_action.
  case_decide; cbn [fst snd app]; (split; [exact HI|]); each_effect.
  all: cbn; rewrite ?Hi; eauto.
Qed.

(** An assignment to a field other than the id and the pending table that
    leaves the stream alone or clears it. *)
Lemma keeps_assign seen s f :
  (forall session,
      session_id (f session) = session_id session
      /\ pendingRequests (f session) = pendingRequests session
      /\ (sseResponse (f session) = sseResponse session
          \/ sseResponse (f session) = None)) ->
  keeps seen (assign s f).
Proof.
  intros Hf g HI. unfold assign, update. cbn [fst snd]. split; [|constructor].
  destruct (heap g !! s) as [session|] eqn:E.
  - rewrite (alter_Some _ _ _ _ E). destruct (Hf session) as (H1 & H2 & H3).
    apply (Inv_modify seen g s session); auto. intros i k. rewrite H2. auto.
  - rewrite (alter_id' _ _ _ E). exact HI.
Qed.

Lemma pending_requested seen g s session i k :
  Inv seen g ->
  heap g !! s = Some session -> pendingRequests session !! i = Some k ->
  requested seen k i.
Proof.
  intros ((_ & _ & _ & Hp) & Ht & _) E Hk.
  destruct (Hp s session i k E Hk) as [t H]. exact (Ht t _ H).
Qed.

Lemma keeps_handleStdioMessage seen s message :
  keeps seen (handleStdioMessage stringify s message).
Proof.
  intros g HI. destruct (heap g !! s) as [session|] eqn:E.
  - assert (Forall (sound seen) (pushed stringify session message)) as Hpush.
    { unfold pushed. destruct (sseResponse session) as [r|] eqn:Hr;
        each_effect.
      split; [exact (proj1 (proj2 (proj2 HI) s session r E Hr))|eauto]. }
    assert (forall i, id message = Some i -> pendingRequests session !! i = None ->
              Inv seen (fst (handleStdioMessage stringify s message g))
              /\ Forall (sound seen)
                   (snd (handleStdioMessage stringify s message g))) as Hun.
    { intros i Hi Hp.
      rewrite (handleStdioMessage_unmatched stringify s session message g E);
        [auto|]. intros j Hj. congruence. }
    destruct (id message) as [i|] eqn:Hi.
    + destruct (pendingRequests session !! i) as [k|] eqn:Hp; [|eauto].
      rewrite (handleStdioMessage_matched stringify s session message i k g E Hi Hp).
      pose proof (pending_requested seen g s session i k HI E Hp) as Hreq.
      cbn [fst snd]. split.
      * assert (Inv seen
                  (set_heap (<[s := set_pendingRequests
                                      (delete i (pendingRequests session))
                                      session]> (heap g)) g)) as H1.
        { apply (Inv_modify seen g s session); auto.
          intros j x H. cbn in H. apply lookup_delete_Some in H as [_ H]. exact H. }
        case_decide; exact H1.
      * constructor; [cbn; eauto|]. apply Forall_app. split; [|exact Hpush].
        case_decide; each_effect. cbn. rewrite Hi. auto.
    + rewrite (handleStdioMessage_unmatched stringify s session message g E);
        [auto|]. intros j Hj. congruence.
  - unfold handleStdioMessage. unfold_action. rewrite E. cbn. rewrite E.
    split; [exact HI|constructor].
Qed.

Lemma keeps_handleStdioData seen s data :
  keeps seen (handleStdioData parse stringify s data).
Proof.
  unfold handleStdioData. apply keeps_with_session. intros g session E HI.
  destruct (pop _) as [last_line lines].
  refine (keeps_seq seen _ _ _ _ g HI).
  - apply keeps_assign. intros x. cbn. auto.
  - apply keeps_for_of. intros line. unfold handleLine.
    destruct (truthy _); [|apply keeps_skip].
    destruct (parse line); [apply keeps_handleStdioMessage|apply keeps_skip].
Qed.

Lemma keeps_onClose seen res : keeps seen (onClose res).
Proof.
  intros g HI. unfold onClose.
  destruct (closeListeners g !! res) as [s|]; [|split; [exact HI|constructor]].
  refine (keeps_with_session seen s _ _ g HI). intros g' session E HI'.
  case_decide; [|apply keeps_skip, HI'].
  apply keeps_assign; [|exact HI']. intros x. cbn. auto.
Qed.

Lemma keeps_onError seen s : keeps seen (onError s).
Proof. apply keeps_assign. intros x. cbn. auto. Qed.

Lemma keeps_onExit seen s : keeps seen (onExit s).
Proof.
  unfold onExit. apply keeps_with_session. intros g session E HI.
  refine (keeps_seq seen _ _ _ _ g HI).
  - apply keeps_assign. intros x. cbn. auto.
  - intros g' HI'. split; [|constructor]. cbn [fst update].
    apply (Inv_store seen g' _ HI'). intros sid s0 H.
    apply lookup_delete_Some in H as [_ H]. auto.
Qed.

Lemma keeps_onTimeout seen t : keeps seen (onTimeout t).
Proof.
  intros g HI. destruct (timers g !! t) as [tm|] eqn:Ht.
  - destruct HI as (Hwf & Hposted & Hsinks).
    destruct (proj2 (proj1 (proj2 (proj2 Hwf)) t tm Ht)) as [session E].
    pose proof (conj Hwf (conj Hposted Hsinks)) as HI.
    destruct (pendingRequests session !! t_id tm) as [k|] eqn:Hp.
    + rewrite (onTimeout_fires t tm session g Ht E (ex_intro _ k Hp)).
      cbn [fst snd]. split.
      * pose proof (Inv_timeout seen g t tm session HI Ht E) as H1.
        case_decide; exact H1.
      * pose proof (Hposted t tm Ht) as Hreq.
        constructor; [cbn; eauto|]. case_decide; each_effect.
        cbn. auto.
    + rewrite (onTimeout_after_reply t tm session g Ht E Hp).
      split; [exact (Inv_expire seen g t tm session HI Ht E Hp)|constructor].
  - unfold onTimeout. rewrite Ht. split; [exact HI|constructor].
Qed.

Lemma keeps_close seen : In Shutdown seen -> keeps seen close.
Proof.
  intros Hsd g HI. unfold close. refine (keeps_seq seen _ _ _ _ g HI).
  - apply keeps_for_of. intros s. apply keeps_with_session.
    intros g' session _ HI'. apply keeps_emit; [exact Hsd|exact HI'].
  - intros g' HI'. split; [|constructor]. cbn [fst update].
    apply (Inv_store seen g' ∅ HI'). intros sid s. rewrite lookup_empty.
    discriminate.
Qed.

Lemma keeps_processMessage seen s session req res g :
  posted seen res req ->
  heap g !! s = Some session ->
  Inv seen g ->
  Inv seen (fst (processMessage stringify s (body req) res g))
  /\ Forall (sound seen) (snd (processMessage stringify s (body req) res g)).
Proof.
  intros Hpost E HI. destruct (id (body req)) as [i|] eqn:Hi.
  - assert (requested seen res i) as Hreq by (exists req; auto).
    assert (intercepted (body req) ->
            Inv seen (fst (processMessage stringify s (body req) res g))
            /\ Forall (sound seen)
                 (snd (processMessage stringify s (body req) res g))) as Hint.
    { intros Hm. rewrite (processMessage_intercepted stringify s _ res i g Hi Hm).
      split; [exact HI|]. each_effect. cbn. auto. }
    destruct (decide (method (body req) = Some (js "logging/setLevel")))
      as [H1|H1]; [apply Hint; left; exact H1|].
    destruct (decide (method (body req) = Some (js "resources/list")))
      as [H2|H2]; [apply Hint; right; exact H2|].
    assert (~ intercepted (body req)) as Hm by (intros [H|H]; contradiction).
    rewrite (proj2 (processMessage_request stringify s session _ res i g E Hi Hm)).
    split; [exact (Inv_register seen g s session i res HI E Hreq)|].
    each_effect; cbn; [exists res, req; auto|reflexivity].
  - rewrite (processMessage_notification stringify s session _ res g E Hi).
    split; [exact HI|]. each_effect; cbn.
    + exists res, req. auto.
    + eauto.
Qed.

Lemma or_default_truthy a : truthy (or_default a) = true.
Proof.
  unfold or_default. destruct a as [s|]; [|reflexivity].
  destruct (truthy s) eqn:E; [exact E|reflexivity].
Qed.

Lemma keeps_handleMessage seen req res spawn_ok :
  In (POST req res spawn_ok) seen ->
  keeps seen (handleMessage stringify req res spawn_ok).
Proof.
  intros Hin g HI. assert (posted seen res req) as Hpost by (exists spawn_ok; exact Hin).
  destruct (connected_session (messageSessionId req) g) as [s|] eqn:Hc.
  - rewrite (handleMessage_connected stringify req res spawn_ok s g Hc).
    destruct (connected_session_Some _ _ _ Hc) as (session & _ & E & _).
    exact (keeps_processMessage seen s session req res g Hpost E HI).
  - destruct spawn_ok.
    + rewrite (handleMessage_created stringify req res g Hc). cbn [fst snd].
      destruct (keeps_processMessage seen (next g) _ req res
                  (created (messageSessionId req) g) Hpost
                  (created_lookup _ g)
                  (Inv_created seen _ g HI (or_default_truthy _))) as [H1 H2].
      split; [exact H1|]. constructor; [|exact H2].
      cbn. exists req, res. auto.
    + rewrite (handleMessage_spawn_failure stringify req res g Hc).
      split; [exact HI|]. each_effect. cbn. eauto.
Qed.

Lemma attach_sound seen req res spawn_ok s session g :
  Inv seen g ->
  heap g !! s = Some session ->
  Inv (seen ++ [GET req res spawn_ok]) (fst (attach s res g))
  /\ Forall (sound (seen ++ [GET req res spawn_ok])) (snd (attach s res g)).
Proof.
  intros HI E. rewrite (attach_spec s res session g E). cbn [fst snd].
  split; [exact (Inv_attach seen req res spawn_ok g s session HI E)|].
  assert (In res (streams (seen ++ [GET req res spawn_ok]))) as Hin.
  { rewrite streams_app. apply in_or_app. right. left. reflexivity. }
  each_effect; cbn; auto.
Qed.

Lemma handleSSE_sound seen req res spawn_ok g :
  Inv seen g ->
  Inv (seen ++ [GET req res spawn_ok]) (fst (handleSSE req res spawn_ok g))
  /\ Forall (sound (seen ++ [GET req res spawn_ok]))
       (snd (handleSSE req res spawn_ok g)).
Proof.
  intros HI. destruct (sessions g !! sseSessionId req) as [s|] eqn:Hs.
  - rewrite (handleSSE_stored req res spawn_ok s g Hs).
    destruct (proj1 (proj2 (proj1 HI)) _ s Hs) as (_ & session & E & _).
    exact (attach_sound seen req res spawn_ok s session g HI E).
  - destruct spawn_ok.
    + rewrite (handleSSE_created req res g Hs). cbn [fst snd].
      destruct (attach_sound seen req res true (next g) _
                  (created (sseSessionId req) g)
                  (Inv_created seen _ g HI (or_default_truthy _))
                  (created_lookup _ g)) as [H1 H2].
      split; [exact H1|]. constructor; [|exact H2].
      cbn. exists req, res. left. apply in_or_app. right. left. reflexivity.
    + unfold handleSSE. rewrite Hs. cbn [try_createSession createSession emit fst snd].
      split; [apply Inv_app, HI|].
      each_effect. cbn. split; [reflexivity|]. rewrite streams_app.
      apply in_or_app. right. left. reflexivity.
Qed.

Lemma step_sound seen ev g :
  Inv seen g ->
  Inv (seen ++ [ev]) (fst (step parse stringify ev g))
  /\ Forall (sound (seen ++ [ev])) (snd (step parse stringify ev g)).
Proof.
  intros HI.
  assert (In ev (seen ++ [ev])) as Hin by (apply in_or_app; right; left; reflexivity).
  pose proof (Inv_app seen [ev] g HI) as HI'.
  destruct ev; cbn [step]; [apply handleSSE_sound, HI|..].
  - exact (keeps_handleMessage _ req res spawn_ok Hin g HI').
  - exact (keeps_onClose _ res g HI').
  - exact (keeps_handleStdioData _ s data g HI').
  - exact (keeps_skip _ g HI').
  - exact (keeps_onError _ s g HI').
  - exact (keeps_onExit _ s g HI').
  - exact (keeps_onTimeout _ t g HI').
  - exact (keeps_close _ Hin g HI').
Qed.

Lemma run_sound evs :
  forall seen g,
    Inv seen g ->
    Inv (seen ++ evs) (fst (run parse stringify evs g))
    /\ Forall (sound (seen ++ evs)) (snd (run parse stringify evs g)).
Proof.
  induction evs as [|ev evs IH]; intros seen g HI.
  - rewrite app_nil_r. split; [exact HI|constructor].
  - replace (seen ++ ev :: evs) with ((seen ++ [ev]) ++ evs)
      by (rewrite <- app_assoc; reflexivity).
    unfold run. cbn [for_of]. unfold seq.
    destruct (step_sound seen ev g HI) as [H1 F1].
    destruct (step parse stringify ev g) as [g1 e1]. cbn [fst snd] in H1, F1.
    destruct (IH (seen ++ [ev]) g1 H1) as [H2 F2]. unfold run in H2, F2.
    destruct (for_of evs (step parse stringify) g1) as [g2 e2].
    cbn [fst snd] in *. split; [exact H2|]. apply Forall_app. split; [|exact F2].
    eapply Forall_impl; [exact F1|]. intros e He. apply sound_app, He.
Qed.

Lemma Inv_new : Inv [] new_gateway.
Proof.
  split; [exact well_formed_new|]. split.
  - intros t tm H. cbn in H. rewrite lookup_empty in H. discriminate.
  - intros s session r H. cbn in H. rewrite lookup_empty in H. discriminate.
Qed.

Lemma run_Inv evs : Inv evs (fst (run parse stringify evs new_gateway)).
Proof. exact (proj1 (run_sound evs [] new_gateway Inv_new)). Qed.

Lemma run_effects evs :
  Forall (sound evs) (snd (run parse stringify evs new_gateway)).
Proof. exact (proj2 (run_sound evs [] new_gateway Inv_new)). Qed.

(** *** A stream that was closed

    Once the close listener of a response has run, no session holds the
    response, and no later event but a GET with this response writes to
    it. *)

(** What is written to the stream [res]. *)
Definition sse_writes (res : nat) (effects : list Effect) : list jsstring :=
  flat_map (fun e => match e with
                     | SseWrite r data => if decide (r = res) then [data] else []
                     | _ => []
                     end) effects.

Definition sinkless (r : nat) (g : Gateway) : Prop :=
  forall s session, heap g !! s = Some session -> sseResponse session <> Some r.

Definition avoids (r : nat) (a : Action) : Prop :=
  forall g,
    sinkless r g -> sinkless r (fst (a g)) /\ sse_writes r (snd (a g)) = [].

Lemma sse_writes_app r e1 e2 :
  sse_writes r (e1 ++ e2) = sse_writes r e1 ++ sse_writes r e2.
Proof. apply flat_map_app. Qed.

Lemma avoids_skip r : avoids r skip.
Proof. intros g H. auto. Qed.

Lemma avoids_seq r a b : avoids r a -> avoids r b -> avoids r (a ;; b).
Proof.
  intros Ha Hb g H. unfold seq. destruct (Ha g H) as [H1 F1].
  destruct (a g) as [g1 e1]. destruct (Hb g1 H1) as [H2 F2].
  destruct (b g1) as [g2 e2]. cbn [fst snd] in *. split; [exact H2|].
  rewrite sse_writes_app, F1, F2. reflexivity.
Qed.

Lemma avoids_for_of {A} r (l : list A) body :
  (forall x, avoids r (body x)) -> avoids r (for_of l body).
Proof.
  intros H. induction l; simpl; [apply avoids_skip|]. apply avoids_seq; auto.
Qed.

Lemma avoids_with_session r s body :
  (forall g session,
      heap g !! s = Some session -> sinkless r g ->
      sinkless r (fst (body session g))
      /\ sse_writes r (snd (body session g)) = []) ->
  avoids r (with_session s body).
Proof.
  intros H g Hg. unfold with_session.
  destruct (heap g !! s) as [session|] eqn:E; [exact (H g session E Hg)|auto].
Qed.

Lemma avoids_emit r e : sse_writes r [e] = [] -> avoids r (emit e).
Proof. intros He g H. auto. Qed.

Lemma avoids_update r f :
  (forall g, heap (f g) = heap g) -> avoids r (update f).
Proof.
  intros Hf g H. split; [|reflexivity]. intros s session. cbn. rewrite Hf.
  apply H.
Qed.

Lemma avoids_assign r s f :
  (forall session, sseResponse session <> Some r ->
                   sseResponse (f session) <> Some r) ->
  avoids r (assign s f).
Proof.
  intros Hf g H. split; [|reflexivity]. intros s0 x. cbn.
  intros Hx. apply lookup_alter_Some in Hx as [(_ & y & Hy & ->)|[_ Hx]].
  - apply Hf. exact (H _ _ Hy).
  - exact (H _ _ Hx).
Qed.

Lemma avoids_resolve r k response : avoids r (resolve k response).
Proof.
  intros g H. unfold resolve. unfold_action. case_decide; cbn; auto.
Qed.

Lemma avoids_try_createSession r sessionId spawn_ok body handler :
  (forall s, avoids r (body s)) -> avoids r handler ->
  avoids r (try_createSession sessionId spawn_ok body handler).
Proof.
  intros Hb Hh g H. unfold try_createSession, createSession.
  destruct spawn_ok; [|exact (Hh g H)].
  set (g1 := set_sessions _ _).
  assert (sinkless r g1) as H1.
  { intros s x. cbn. intros Hx.
    apply lookup_insert_Some in Hx as [[_ <-]|[_ Hx]]; [discriminate|].
    exact (H _ _ Hx). }
  destruct (Hb (next g) g1 H1) as [H2 F2].
  destruct (body (next g) g1) as [g2 e2]. auto.
Qed.

Lemma avoids_handleStdioMessage r s message :
  avoids r (handleStdioMessage stringify s message).
Proof.
  unfold handleStdioMessage.
  apply avoids_seq; apply avoids_with_session; intros g session E Hg.
  - destruct (id message) as [i|]; [|auto].
    destruct (pendingRequests session !! i); [|auto].
    refine (avoids_seq r _ _ _ _ g Hg); [|apply avoids_resolve].
    apply avoids_assign. auto.
  - destruct (sseResponse session) as [res|] eqn:Hr; [|auto].
    split; [exact Hg|]. cbn. rewrite decide_False; [reflexivity|].
    intros ->. exact (Hg s session E Hr).
Qed.

Lemma avoids_processMessage r s message res :
  avoids r (processMessage stringify s message res).
Proof.
  unfold processMessage. destruct (id message) as [i|].
  - case_decide; [apply avoids_emit; reflexivity|].
    case_decide; [apply avoids_emit; reflexivity|].
    apply avoids_seq; [|apply avoids_seq].
    + apply avoids_assign. auto.
    + apply avoids_with_session. intros g session _ Hg. auto.
    + intros g Hg. auto.
  - apply avoids_seq; [|apply avoids_emit; reflexivity].
    apply avoids_with_session. intros g session _ Hg. auto.
Qed.

Lemma avoids_attach r s res : res <> r -> avoids r (attach s res).
Proof.
  intros Hne. unfold attach.
  do 4 (apply avoids_seq; [apply avoids_emit; reflexivity|]).
  apply avoids_seq; [|apply avoids_seq].
  - apply avoids_assign. intros session _. cbn. congruence.
  - apply avoids_emit. cbn. rewrite decide_False by exact Hne. reflexivity.
  - apply avoids_update. reflexivity.
Qed.

Lemma step_avoids r ev :
  ~ In r (streams [ev]) -> avoids r (step parse stringify ev).
Proof.
  destruct ev; cbn [step streams flat_map app In]; intros Hev.
  - assert (res <> r) as Hne by tauto. intros g Hg. unfold handleSSE.
    destruct (sessions g !! sseSessionId req);
      [exact (avoids_attach r _ res Hne g Hg)|].
    apply avoids_try_createSession; [| |exact Hg].
    + intros s. apply avoids_seq; [apply avoids_update; reflexivity|].
      apply avoids_attach, Hne.
    + apply avoids_emit. reflexivity.
  - intros g Hg. unfold handleMessage.
    destruct (connected_session _ g);
      [exact (avoids_processMessage r _ _ _ g Hg)|].
    apply avoids_try_createSession; [| |exact Hg].
    + intros s. apply avoids_seq; [apply avoids_update; reflexivity|].
      apply avoids_processMessage.
    + apply avoids_emit. reflexivity.
  - intros g Hg. unfold onClose. destruct (closeListeners g !! res); [|auto].
    refine (avoids_with_session r _ _ _ g Hg). intros g' session _ Hg'.
    case_decide; [|auto]. apply avoids_assign; [|exact Hg'].
    intros x _. cbn. discriminate.
  - unfold handleStdioData. apply avoids_with_session. intros g session _ Hg.
    destruct (pop _) as [last_line lines].
    refine (avoids_seq r _ _ _ _ g Hg); [apply avoids_assign; auto|].
    apply avoids_for_of. intros line. unfold handleLine.
    destruct (truthy _); [|apply avoids_skip].
    destruct (parse line); [apply avoids_handleStdioMessage|apply avoids_skip].
  - apply avoids_skip.
  - apply avoids_assign. auto.
  - unfold onExit. apply avoids_with_session. intros g session _ Hg.
    refine (avoids_seq r _ _ _ _ g Hg); [apply avoids_assign; auto|].
    apply avoids_update. reflexivity.
  - intros g Hg. unfold onTimeout. destruct (timers g !! t) as [tm|]; [|auto].
    refine (avoids_seq r _ _ _ _ g Hg); [apply avoids_update; reflexivity|].
    apply avoids_with_session. intros g' session _ Hg'.
    destruct (pendingRequests session !! t_id tm); [|auto].
    refine (avoids_seq r _ _ _ _ g' Hg'); [|apply avoids_resolve].
    apply avoids_assign. auto.
  - intros g Hg. unfold close. refine (avoids_seq r _ _ _ _ g Hg).
    + apply avoids_for_of. intros s. apply avoids_with_session.
      intros g' session _ Hg'. auto.
    + apply avoids_update. reflexivity.
Qed.

Lemma run_avoids r evs :
  ~ In r (streams evs) -> avoids r (run parse stringify evs).
Proof.
  induction evs as [|ev evs IH]; intros Hr; [apply avoids_skip|].
  change (ev :: evs) with ([ev] ++ evs) in Hr. rewrite streams_app in Hr.
  unfold run. cbn [for_of]. apply avoids_seq.
  - apply step_avoids. intros H. apply Hr, in_or_app. auto.
  - apply IH. intros H. apply Hr, in_or_app. auto.
Qed.

(** The close listener of [r] leaves no session with the stream [r]. *)
Lemma onClose_sinkless seen r g :
  Inv seen g -> NoDup (streams seen) -> sinkless r (fst (onClose r g)).
Proof.
  intros (_ & _ & Hs) Hnd.
  assert (forall s session, heap g !! s = Some session ->
            sseResponse session = Some r -> closeListeners g !! r = Some s)
    as Hl by (intros s session E Hr; exact (proj2 (Hs s session r E Hr) Hnd)).
  unfold onClose. destruct (closeListeners g !! r) as [s|] eqn:Hc.
  - unfold with_session. destruct (heap g !! s) as [session|] eqn:E.
    + case_decide as Hd.
      * unfold_action. intros s0 x Hx. cbn in Hx.
        apply lookup_alter_Some in Hx as [(_ & y & Hy & ->)|[Hne Hx]];
          [discriminate|].
        intros Hr. pose proof (Hl s0 x Hx Hr). congruence.
      * intros s0 x Hx Hr. pose proof (Hl s0 x Hx Hr). cbn in Hx. congruence.
    + intros s0 x Hx Hr. pose proof (Hl s0 x Hx Hr). cbn in Hx. congruence.
  - intros s0 x Hx Hr. pose proof (Hl s0 x Hx Hr). discriminate.
Qed.

(** *** Runs from the initial state *)

(** X3: in every run, a reply written on a response answers a request of the
    run on this response.  A JSON-RPC reply that carries an id has status
    200 and the id of a request posted on the response; a JSON-RPC reply
    without id is the 500 of a POST; the empty object is the 202 of a posted
    notification; the plain error object is the 500 of a GET. *)
Theorem replies_answer_requests evs k status b :
  In (HttpReply k status b) (snd (run parse stringify evs new_gateway)) ->
  answers evs k status b.
Proof.
  intros H. pose proof (run_effects evs) as F.
  rewrite List.Forall_forall in F. exact (F _ H).
Qed.

(** X5: in every run, what is written to a stream goes to the response of a
    GET of the run, and is the opening comment [:ok] or one [data:] event
    that carries a serialized message and ends with an empty line. *)
Theorem stream_carries_events evs res data :
  In (SseWrite res data) (snd (run parse stringify evs new_gateway)) ->
  In res (streams evs)
  /\ (data = js ":ok" ++ [LF; LF]
      \/ exists message, data = js "data: " ++ stringify message ++ [LF; LF]).
Proof.
  intros H. pose proof (run_effects evs) as F.
  rewrite List.Forall_forall in F. exact (F _ H).
Qed.

(** X4: in every run, what is written to the stdin of a process is the
    serialization of a posted message followed by one newline, and the
    message is a notification or a request that is not intercepted. *)
Theorem backend_reads_posted_messages evs p data :
  In (StdinWrite p data) (snd (run parse stringify evs new_gateway)) ->
  exists k req,
    posted evs k req /\ data = stringify (body req) ++ [LF]
    /\ (id (body req) = None \/ ~ intercepted (body req)).
Proof.
  intros H. pose proof (run_effects evs) as F.
  rewrite List.Forall_forall in F. exact (F _ H).
Qed.

(** X7: in every state the gateway reaches, an entry of a pending table
    belongs to a request posted with this id on the response the entry
    resolves, and a timer of 30000 ms is set for this session, id and
    response: no entry waits without a timeout. *)
Theorem pending_requests_are_timed evs s session i k :
  heap (fst (run parse stringify evs new_gateway)) !! s = Some session ->
  pendingRequests session !! i = Some k ->
  requested evs k i
  /\ exists t,
       timers (fst (run parse stringify evs new_gateway)) !! t
       = Some {| t_session := s; t_id := i; t_resolve := k; t_delay := 30000 |}.
Proof.
  intros E Hk. pose proof (run_Inv evs) as HI.
  split; [exact (pending_requested _ _ s session i k HI E Hk)|].
  destruct HI as ((_ & _ & _ & Hp) & _). exact (Hp s session i k E Hk).
Qed.

(** X10: in every state the gateway reaches, an id of the session store is
    not the empty string and leads to a session object created for this id. *)
Theorem stored_sessions_exist evs sessionId s :
  sessions (fst (run parse stringify evs new_gateway)) !! sessionId = Some s ->
  truthy sessionId = true
  /\ exists session,
       heap (fst (run parse stringify evs new_gateway)) !! s = Some session
       /\ session_id session = sessionId.
Proof.
  intros H. destruct (run_Inv evs) as ((_ & Hst & _) & _). exact (Hst _ _ H).
Qed.

(** X6: when every GET of a run has a response of its own, nothing is
    written to a stream once its connection has closed: after the close
    listener of [r] no event, short of a GET with this response, writes to
    [r]. *)
Theorem no_write_after_close evs1 r evs2 :
  NoDup (streams evs1) ->
  ~ In r (streams evs2) ->
  sse_writes r
    (snd (run parse stringify evs2
            (fst (run parse stringify (evs1 ++ [RequestClose r]) new_gateway))))
  = [].
Proof.
  intros Hnd Hr. apply run_avoids; [exact Hr|].
  pose proof (run_Inv evs1) as HI. unfold run in *. rewrite for_of_app.
  unfold seq. destruct (for_of evs1 _ new_gateway) as [g1 e1].
  cbn [fst for_of step] in *. unfold seq, skip.
  pose proof (onClose_sinkless evs1 r g1 HI Hnd) as H.
  destruct (onClose r g1) as [g2 e2]. exact H.
Qed.

End History.

(** ** Output that arrives after a process event

    The 'exit' and 'error' listeners touch the [connected] flag and the
    store, which the decoder and the dispatch never read: a chunk of stdout
    is handled the same way before and after them. *)

Section Late.
Variable parse : jsstring -> option JSONRPCMessage.
Variable stringify : JSONRPCMessage -> jsstring.
Variable s : nat.

(** A state change made of [session.connected = false] on [s] and of changes
    outside the session objects and the settled promises. *)
Variable T : Gateway -> Gateway.
Hypothesis T_lookup :
  forall g j,
    heap (T g) !! j
    = (if decide (j = s) then set_connected false else fun x => x) <$> heap g !! j.
Hypothesis T_settled : forall g, settled (T g) = settled g.
Hypothesis T_set_settled :
  forall g d, T (set_settled d g) = set_settled d (T g).
Hypothesis T_alter :
  forall g j f,
    (forall x, session_id (f x) = session_id x) ->
    (forall x, f (set_connected false x) = set_connected false (f x)) ->
    T (set_heap (alter f j (heap g)) g) = set_heap (alter f j (heap (T g))) (T g).

Definition late (a : Action) : Prop :=
  forall g, a (T g) = (T (fst (a g)), snd (a g)).

Lemma late_skip : late skip.
Proof. intros g. reflexivity. Qed.

Lemma late_emit e : late (emit e).
Proof. intros g. reflexivity. Qed.

Lemma late_seq a b : late a -> late b -> late (a ;; b).
Proof.
  intros Ha Hb g. unfold seq. rewrite Ha. destruct (a g) as [g1 e1]. cbn [fst snd].
  rewrite Hb. destruct (b g1) as [g2 e2]. reflexivity.
Qed.

Lemma late_for_of {A} (l : list A) body :
  (forall x, late (body x)) -> late (for_of l body).
Proof. intros H. induction l; simpl; auto using late_skip, late_seq. Qed.

Lemma late_with_session j body :
  (forall x g, body (set_connected false x) g = body x g) ->
  (forall x, late (body x)) ->
  late (with_session j body).
Proof.
  intros Hd Hb g. unfold with_session. rewrite T_lookup.
  destruct (heap g !! j) as [x|]; [|reflexivity]. cbn [fmap option_fmap option_map].
  case_decide; [rewrite Hd|]; apply Hb.
Qed.

Lemma late_assign j f :
  (forall x, session_id (f x) = session_id x) ->
  (forall x, f (set_connected false x) = set_connected false (f x)) ->
  late (assign j f).
Proof.
  intros H1 H2 g. unfold assign, update. cbn [fst snd].
  rewrite (T_alter g j f H1 H2). reflexivity.
Qed.

Lemma late_resolve k response : late (resolve k response).
Proof.
  intros g. unfold resolve. unfold_action. rewrite T_settled.
  case_decide; [reflexivity|]. cbn [fst snd]. rewrite T_set_settled. reflexivity.
Qed.

Lemma late_handleStdioMessage j message :
  late (handleStdioMessage stringify j message).
Proof.
  unfold handleStdioMessage. apply late_seq; apply late_with_session.
  - reflexivity.
  - intros x. destruct (id message) as [i|]; [|apply late_skip].
    destruct (pendingRequests x !! i); [|apply late_skip].
    apply late_seq; [|apply late_resolve]. apply late_assign; reflexivity.
  - reflexivity.
  - intros x. destruct (sseResponse x); [apply late_emit|apply late_skip].
Qed.

Lemma late_handleStdioData j data :
  late (handleStdioData parse stringify j data).
Proof.
  unfold handleStdioData. apply late_with_session; [reflexivity|].
  intros x. destruct (pop _) as [last_line lines].
  apply late_seq; [apply late_assign; reflexivity|].
  apply late_for_of. intros line. unfold handleLine.
  destruct (truthy _); [|apply late_skip].
  destruct (parse line); [apply late_handleStdioMessage|apply late_skip].
Qed.

(** When the state change leaves the timers and the allocator alone as
    well, the [try] block of [handleMessage] can come after it too. *)
Hypothesis T_setTimeout : forall tm, late (setTimeout tm).

Lemma late_sendToStdio j message : late (sendToStdio stringify j message).
Proof.
  unfold sendToStdio. apply late_with_session; [reflexivity|].
  intros x. apply late_emit.
Qed.

Lemma late_processMessage j message res :
  late (processMessage stringify j message res).
Proof.
  unfold processMessage. destruct (id message) as [i|].
  - case_decide; [apply late_emit|]. case_decide; [apply late_emit|].
    apply late_seq; [apply late_assign; reflexivity|].
    apply late_seq; [apply late_sendToStdio|apply T_setTimeout].
  - apply late_seq; [apply late_sendToStdio|apply late_emit].
Qed.

End Late.

Lemma alter_alter_connected (h : gmap nat Session) s j f :
  (forall x, f (set_connected false x) = set_connected false (f x)) ->
  alter (set_connected false) s (alter f j h)
  = alter f j (alter (set_connected false) s h).
Proof.
  intros Hf. destruct (decide (s = j)) as [<-|Hne].
  - rewrite !alter_alter_eq. apply alter_ext. intros x _. cbn. auto.
  - apply alter_alter_ne, Hne.
Qed.

Lemma onError_late s g j f :
  (forall x, session_id (f x) = session_id x) ->
  (forall x, f (set_connected false x) = set_connected false (f x)) ->
  fst (onError s (set_heap (alter f j (heap g)) g))
  = set_heap (alter f j (heap (fst (onError s g)))) (fst (onError s g)).
Proof.
  intros _ Hf. cbn. rewrite (alter_alter_connected _ _ _ _ Hf). reflexivity.
Qed.

Lemma onExit_state s g :
  onExit s g
  = (match heap g !! s with
     | Some session =>
         set_sessions (delete (session_id session) (sessions g))
           (set_heap (alter (set_connected false) s (heap g)) g)
     | None => g
     end, []).
Proof.
  unfold onExit. unfold_action. destruct (heap g !! s); reflexivity.
Qed.

Lemma onExit_late s g j f :
  (forall x, session_id (f x) = session_id x) ->
  (forall x, f (set_connected false x) = set_connected false (f x)) ->
  fst (onExit s (set_heap (alter f j (heap g)) g))
  = set_heap (alter f j (heap (fst (onExit s g)))) (fst (onExit s g)).
Proof.
  intros Hid Hf. rewrite !onExit_state. cbn [fst heap set_heap].
  destruct (decide (j = s)) as [->|Hne].
  - rewrite lookup_alter_eq. destruct (heap g !! s) as [x|]; cbn; [|reflexivity].
    rewrite Hid, (alter_alter_connected _ _ _ _ Hf). reflexivity.
  - rewrite lookup_alter_ne by exact Hne.
    destruct (heap g !! s) as [x|]; cbn; [|reflexivity].
    rewrite (alter_alter_connected _ _ _ _ Hf). reflexivity.
Qed.

Lemma onExit_lookup s g j :
  heap (fst (onExit s g)) !! j
  = (if decide (j = s) then set_connected false else fun x => x) <$> heap g !! j.
Proof.
  rewrite onExit_state. cbn [fst]. case_decide as Hj; [subst j|].
  - destruct (heap g !! s) as [x|] eqn:E; cbn [heap set_sessions set_heap].
    + rewrite lookup_alter_eq, E. reflexivity.
    + rewrite E. reflexivity.
  - destruct (heap g !! s) as [x|]; cbn [heap set_sessions set_heap].
    + rewrite lookup_alter_ne by congruence. destruct (heap g !! j); reflexivity.
    + destruct (heap g !! j); reflexivity.
Qed.

Lemma onError_lookup s g j :
  heap (fst (onError s g)) !! j
  = (if decide (j = s) then set_connected false else fun x => x) <$> heap g !! j.
Proof.
  cbn. case_decide as Hj; [subst j|].
  - apply lookup_alter_eq.
  - rewrite lookup_alter_ne by congruence. destruct (heap g !! j); reflexivity.
Qed.

Lemma onExit_quiet s g : onExit s g = (fst (onExit s g), []).
Proof. rewrite onExit_state. reflexivity. Qed.

Lemma onError_quiet s g : onError s g = (fst (onError s g), []).
Proof. reflexivity. Qed.

Section AfterExit.
Variable parse : jsstring -> option JSONRPCMessage.
Variable stringify : JSONRPCMessage -> jsstring.

(** X14: a chunk of stdout that arrives after the 'exit' or the 'error'
    event of a process is handled as if it had arrived before: the same
    lines are dispatched, the same requests answered, the same events
    written to the stream, and the gateway ends in the same state. *)
Theorem output_after_exit s j data g :
  (onExit s ;; handleStdioData parse stringify j data) g
  = (handleStdioData parse stringify j data ;; onExit s) g
  /\ (onError s ;; handleStdioData parse stringify j data) g
     = (handleStdioData parse stringify j data ;; onError s) g.
Proof.
  split; unfold seq.
  - rewrite (onExit_quiet s g). cbv beta iota.
    rewrite (late_handleStdioData parse stringify s (fun g => fst (onExit s g))
               (onExit_lookup s)).
    + destruct (handleStdioData parse stringify j data g) as [g1 e1].
      cbn [fst snd]. rewrite (onExit_quiet s g1), app_nil_r. reflexivity.
    + intros g0. rewrite onExit_state. destruct (heap g0 !! s); reflexivity.
    + intros g0 d. rewrite !onExit_state. cbn.
      destruct (heap g0 !! s); reflexivity.
    + intros g0 k f. apply onExit_late.
  - rewrite (onError_quiet s g). cbv beta iota.
    rewrite (late_handleStdioData parse stringify s (fun g => fst (onError s g))
               (onError_lookup s)).
    + destruct (handleStdioData parse stringify j data g) as [g1 e1].
      cbn [fst snd]. rewrite (onError_quiet s g1), app_nil_r. reflexivity.
    + reflexivity.
    + reflexivity.
    + intros g0 k f. apply onError_late.
Qed.

End AfterExit.

(** ** A process that cannot be started

    [spawn] reports a failure in one of two ways.  It throws, as it does
    when the command is undefined, and then [createSession] throws.  Or it
    returns a process that emits 'error' on the next tick, as it does for a
    command that is not found, and then [createSession] has succeeded and
    the 'error' listener runs. *)

Section FailedStart.
Variable stringify : JSONRPCMessage -> jsstring.

(** The [try] block of [handleMessage] does not read the [connected] flag:
    it does the same before and after the 'error' event of a process. *)
Lemma processMessage_after_error s j message res g :
  processMessage stringify j message res (fst (onError s g))
  = (fst (onError s (fst (processMessage stringify j message res g))),
     snd (processMessage stringify j message res g)).
Proof.
  apply (late_processMessage stringify s (fun g => fst (onError s g))
           (onError_lookup s)).
  - intros g0 k f. apply onError_late.
  - intros tm g0. reflexivity.
Qed.

(** C3 (amended): a process that cannot be started.  When [spawn] throws,
    the creation of the session fails: [handleMessage] answers HTTP 500 with
    the JSON-RPC envelope of code -32603, [handleSSE] answers HTTP 500 with
    the body [{ error: 'Failed to create session' }], and both leave the
    gateway, and so the session store, as it was: an id without an entry
    before has none after.  When [spawn] returns and the process reports the
    failure by its 'error' event, the creation has succeeded: the message is
    handled as for any new session, every reply has status 200 or 202 and
    none 500, the session is stored under the id and the event marks it
    disconnected, so that the lookup of the id finds the entry and the test
    of [handleMessage] for a connected session fails.  A request that is not
    intercepted is written to the process and answered by its timer, with
    status 200 and the timeout error.  The process emits the event on the
    next tick, before [handleMessage] resumes after the creation: handled at
    that point, the event leaves the same state and the same effects. *)
Theorem spawn_failure_by_throw_or_error_event req res g :
  connected_session (messageSessionId req) g = None ->
  handleMessage stringify req res false g
  = (g, [HttpReply res 500
           (JsonRpc {| id := None; method := None; params := None;
                       result := None;
                       error := Some (JObj [(js "code", JNum (-32603));
                                            (js "message",
                                             JStr (js "Failed to create session"))]) |})])
  /\ (sessions g !! messageSessionId req = None ->
      sessions (fst (handleMessage stringify req res false g))
        !! messageSessionId req = None)
  /\ (sessions g !! sseSessionId req = None ->
      handleSSE req res false g
      = (g, [HttpReply res 500 (ErrorObject (js "Failed to create session"))]))
  /\ (let out := (handleMessage stringify req res true ;; onError (next g)) g in
      snd out
      = Spawn (next g)
          :: snd (processMessage stringify (next g) (body req) res
                    (created (messageSessionId req) g))
      /\ (forall r status b,
            In (HttpReply r status b) (snd out) ->
            r = res /\ (status = 200 \/ status = 202))
      /\ sessions (fst out) !! messageSessionId req = Some (next g)
      /\ (exists session,
            heap (fst out) !! next g = Some session
            /\ session_id session = messageSessionId req
            /\ process session = next g
            /\ connected session = false)
      /\ connected_session (messageSessionId req) (fst out) = None
      /\ (forall i,
            id (body req) = Some i -> ~ intercepted (body req) ->
            res ∉ settled g ->
            snd out
            = [Spawn (next g);
               StdinWrite (next g) (stringify (body req) ++ [LF]);
               SetTimeout (S (next g)) 30000]
            /\ snd (onTimeout (S (next g)) (fst out))
               = [Resolve res (timeout_response i);
                  HttpReply res 200 (JsonRpc (timeout_response i))]))
  /\ try_createSession (messageSessionId req) true
       (fun s =>
          onError s ;;
          update (fun g =>
            set_sessions (<[messageSessionId req := s]> (sessions g)) g) ;;
          processMessage stringify s (body req) res)
       (emit (HttpReply res 500 creation_failed)) g
     = (handleMessage stringify req res true ;; onError (next g)) g
  /\ (sessions g !! sseSessionId req = None ->
      let out := (handleSSE req res true ;; onError (next g)) g in
      snd out
      = Spawn (next g) :: sse_headers res ++ [SseWrite res (js ":ok" ++ [LF; LF])]
      /\ sessions (fst out) !! sseSessionId req = Some (next g)
      /\ exists session,
           heap (fst out) !! next g = Some session
           /\ sseResponse session = Some res
           /\ connected session = false).
Proof.
  intros E. rewrite (handleMessage_spawn_failure stringify _ _ _ E).
  split; [reflexivity|]. split; [auto|].
  split; [intros H; unfold handleSSE; rewrite H; reflexivity|].
  split; [|split].
  - cbv zeta. rewrite (handleMessage_then_error stringify req res g E). cbv zeta.
    cbn [fst snd].
    destruct (processMessage_frame stringify (next g) _ (body req) res
                (created (messageSessionId req) g) (created_lookup _ g))
      as (Hst & _ & pending & Hnew).
    split; [reflexivity|]. split; [|split; [|split; [|split]]].
    + intros r status b [H|H]; [discriminate H|].
      exact (processMessage_replies stringify _ _ _ _ _ _ _ _ (created_lookup _ g) H).
    + cbn [sessions set_heap]. rewrite Hst. cbn. apply lookup_insert_eq.
    + eexists. cbn [heap set_heap]. rewrite lookup_alter_eq, Hnew.
      split; [reflexivity|]. auto.
    + unfold connected_session. cbn [sessions heap set_heap]. rewrite Hst.
      cbn [sessions created set_sessions]. rewrite lookup_insert_eq.
      rewrite lookup_alter_eq, Hnew. reflexivity.
    + intros i Hi Hm Hres.
      rewrite (proj2 (processMessage_request stringify (next g) _ _ res i
                        (created (messageSessionId req) g)
                        (created_lookup _ g) Hi Hm)).
      cbn [fst snd]. split; [reflexivity|].
      erewrite onTimeout_fires;
        [ | cbn; apply lookup_insert_eq
          | cbn; rewrite lookup_alter_eq, lookup_insert_eq; reflexivity
          | cbn; rewrite lookup_insert_eq; eauto ].
      cbn [t_resolve t_id settled set_heap set_timers set_next set_sessions
           created snd].
      rewrite decide_False by exact Hres. reflexivity.
  - rewrite (handleMessage_then_error stringify req res g E). cbv zeta.
    unfold try_createSession, createSession, seq.
    change (onError (next g) ?x) with (fst (onError (next g) x), @nil Effect).
    cbn [update fst snd app]. fold (created (messageSessionId req) g).
    replace (set_sessions _ (fst (onError (next g) (created _ g))))
      with (fst (onError (next g) (created (messageSessionId req) g)))
      by (cbn; rewrite insert_insert_eq; reflexivity).
    rewrite (processMessage_after_error (next g) (next g) (body req) res
               (created (messageSessionId req) g)).
    reflexivity.
  - intros Hs. cbv zeta. unfold seq. rewrite (handleSSE_created req res g Hs).
    rewrite (attach_spec (next g) res _ _ (created_lookup _ g)).
    cbn [fst snd onError assign update]. rewrite app_nil_r.
    split; [reflexivity|]. split; [cbn; apply lookup_insert_eq|].
    eexists. cbn [heap set_heap set_closeListeners].
    rewrite lookup_alter_eq, lookup_insert_eq. split; [reflexivity|]. auto.
Qed.

End FailedStart.

(** ** The life of a session *)

Lemma kill_each l g :
  for_of l (fun s =>
    with_session s (fun session => emit (Kill (process session)))) g
  = (g, flat_map (fun s => match heap g !! s with
                           | Some session => [Kill (process session)]
                           | None => []
                           end) l).
Proof.
  induction l as [|s l IH]; [reflexivity|]. cbn [for_of flat_map]. unfold seq.
  assert (with_session s (fun session => emit (Kill (process session))) g
          = (g, match heap g !! s with
                | Some session => [Kill (process session)]
                | None => []
                end)) as ->
    by (unfold with_session, emit; destruct (heap g !! s); reflexivity).
  rewrite IH. reflexivity.
Qed.

(** X15:  [close()] sends SIGTERM to the process of every stored session and
    to no other process, and empties the store; the session objects, their
    pending requests and the timers stay as they are. *)
Theorem close_kills_stored_sessions g :
  fst (close g) = set_sessions ∅ g
  /\ forall e,
       In e (snd (close g))
       <-> exists sessionId s session,
             sessions g !! sessionId = Some s /\ heap g !! s = Some session
             /\ e = Kill (process session).
Proof.
  unfold close, seq. rewrite kill_each. cbn [update fst snd].
  split; [reflexivity|]. intros e. rewrite app_nil_r, in_flat_map. split.
  - intros (s & Hs & He). apply in_map_iff in Hs as ([sid s'] & <- & Hin).
    apply list_elem_of_In, elem_of_map_to_list in Hin. cbn [snd] in He.
    destruct (heap g !! s') as [session|] eqn:E; [|destruct He].
    destruct He as [<-|[]]. eauto 6.
  - intros (sid & s & session & Hs & E & ->). exists s. split.
    + apply in_map_iff. exists (sid, s). split; [reflexivity|].
      apply list_elem_of_In, elem_of_map_to_list, Hs.
    + rewrite E. left. reflexivity.
Qed.

(** [a] is undefined or the empty string: [a || b] is [b]. *)
Definition absent (a : option jsstring) : Prop := a = None \/ a = Some [].

(** X11: the first non-empty of the query parameter, the header and (for a
    POST only) the body field names the session, and the default id stands
    in when there is none.  The id is never the empty string, and a GET and
    a POST with the same query parameter and header resolve to the same id
    unless the GET falls back to the default. *)
Theorem session_id_resolution req :
  truthy (sseSessionId req) = true
  /\ truthy (messageSessionId req) = true
  /\ (sseSessionId req <> defaultSessionId ->
      messageSessionId req = sseSessionId req)
  /\ (forall q,
        query_sessionId req = Some q -> truthy q = true ->
        sseSessionId req = q /\ messageSessionId req = q)
  /\ (forall h,
        absent (query_sessionId req) ->
        header_sessionId req = Some h -> truthy h = true ->
        sseSessionId req = h /\ messageSessionId req = h)
  /\ (absent (query_sessionId req) -> absent (header_sessionId req) ->
      sseSessionId req = defaultSessionId
      /\ (forall b,
            body_sessionId req = Some b -> truthy b = true ->
            messageSessionId req = b)
      /\ (absent (body_sessionId req) ->
          messageSessionId req = defaultSessionId)).
Proof.
  unfold sseSessionId, messageSessionId, absent.
  split; [apply or_default_truthy|]. split; [apply or_default_truthy|].
  destruct req as [q h b m]; cbn [query_sessionId header_sessionId body_sessionId].
  destruct q as [[|c q]|], h as [[|c' h]|], b as [[|c'' b]|]; cbn.
  all: repeat split; intros; repeat (destruct_or?; simplify_eq/=); auto.
Qed.

Section Lifecycle.
Variable stringify : JSONRPCMessage -> jsstring.


(** X13: the 'exit' listener deletes the id of its session from the store,
    whichever session object is stored under it.  When the session was
    replaced after an 'error' event, the exit of the old process removes the
    entry of the replacement: the replacement stays connected and untouched,
    but the store leads to it no longer, so that the next POST for the id
    spawns another process. *)
Theorem exit_of_replaced_process s s' session session' req res g :
  well_formed g ->
  heap g !! s = Some session ->
  heap g !! s' = Some session' ->
  sessions g !! session_id session = Some s' ->
  s' <> s ->
  connected session' = true ->
  messageSessionId req = session_id session ->
  let g1 := fst (onExit s g) in
  connected_session (messageSessionId req) g = Some s'
  /\ sessions g1 !! session_id session = None
  /\ heap g1 !! s' = Some session'
  /\ (forall sessionId, sessions g1 !! sessionId <> Some s')
  /\ connected_session (messageSessionId req) g1 = None
  /\ In (Spawn (next g)) (snd (handleMessage stringify req res true g1)).
Proof.
  intros Hwf E E' Hs Hne Hc Hid g1. unfold g1.
  rewrite (onExit_spec s session g E). cbn [fst].
  set (g2 := set_sessions _ _).
  assert (connected_session (messageSessionId req) g2 = None) as Hnone.
  { unfold connected_session. rewrite Hid. cbn. rewrite lookup_delete_eq.
    reflexivity. }
  split; [unfold connected_session; rewrite Hid, Hs, E', Hc; reflexivity|].
  split; [cbn; apply lookup_delete_eq|].
  split; [cbn; rewrite lookup_insert_ne by congruence; exact E'|].
  split; [|split; [exact Hnone|]].
  - intros sid H. cbn in H. apply lookup_delete_Some in H as [Hsid H].
    destruct Hwf as (_ & Hst & _).
    destruct (Hst sid s' H) as (_ & x & Hx & Hxid).
    destruct (Hst _ s' Hs) as (_ & y & Hy & Hyid). congruence.
  - rewrite (handleMessage_created stringify req res g2 Hnone). left. reflexivity.
Qed.


(** X8: a reply of the backend and the timer of the request race for the
    entry of the request: the one that comes first removes it and answers
    the request, the other finds no entry and answers nothing.  Either way
    the reply of the backend is written to the stream of the session. *)
Theorem reply_and_timeout_race s session message i k t g :
  heap g !! s = Some session ->
  id message = Some i ->
  pendingRequests session !! i = Some k ->
  k ∉ settled g ->
  timers g !! t
  = Some {| t_session := s; t_id := i; t_resolve := k; t_delay := 30000 |} ->
  snd ((handleStdioMessage stringify s message ;; onTimeout t) g)
  = Resolve k message :: HttpReply k 200 (JsonRpc message)
      :: pushed stringify session message
  /\ snd ((onTimeout t ;; handleStdioMessage stringify s message) g)
     = Resolve k (timeout_response i)
         :: HttpReply k 200 (JsonRpc (timeout_response i))
         :: pushed stringify session message.
Proof.
  intros E Hi Hp Hk Ht. split.
  - exact (reply_then_timeout stringify s session message i k t g E Hi Hp Hk Ht).
  - exact (timeout_then_reply stringify s session message i k t g E Hi Hp Hk Ht).
Qed.

End Lifecycle.

Section RoundTrip.
Variable stringify : JSONRPCMessage -> jsstring.

(** X1: a request from end to end.  A GET for an id without session spawns
    the process and opens the stream; a POST that resolves to the same id
    spawns nothing more: the request is written to that process and a timer
    of 30000 ms is set; the reply of the process with the id of the request
    answers the POST with status 200 and is written to the stream as well. *)
Theorem request_round_trip req res req' res' spawn_ok i message g :
  sessions g !! sseSessionId req = None ->
  messageSessionId req' = sseSessionId req ->
  id (body req') = Some i ->
  ~ intercepted (body req') ->
  id message = Some i ->
  res' ∉ settled g ->
  snd ((handleSSE req res true ;;
        handleMessage stringify req' res' spawn_ok ;;
        handleStdioMessage stringify (next g) message) g)
  = Spawn (next g)
      :: sse_headers res
      ++ [SseWrite res (js ":ok" ++ [LF; LF]);
          StdinWrite (next g) (stringify (body req') ++ [LF]);
          SetTimeout (S (next g)) 30000;
          Resolve res' message;
          HttpReply res' 200 (JsonRpc message);
          SseWrite res (sse_frame stringify message)].
Proof.
  intros Hs Hid Hi Hm Hi' Hres. unfold seq at 1.
  rewrite (handleSSE_created req res g Hs).
  rewrite (attach_spec (next g) res _ _ (created_lookup _ g)). cbn [fst snd].
  set (session := set_sseResponse (Some res) _).
  set (g1 := set_closeListeners _ _).
  assert (heap g1 !! next g = Some session) as E1 by apply lookup_insert_eq.
  assert (connected_session (messageSessionId req') g1 = Some (next g)) as Hc.
  { unfold connected_session. rewrite Hid.
    replace (sessions g1 !! sseSessionId req) with (Some (next g))
      by (symmetry; apply lookup_insert_eq).
    rewrite E1. reflexivity. }
  unfold seq.
  rewrite (handleMessage_connected stringify req' res' spawn_ok _ g1 Hc).
  rewrite (proj2 (processMessage_request stringify _ session _ res' i g1 E1 Hi Hm)).
  set (session2 := set_pendingRequests _ session).
  set (g2 := set_timers _ _).
  assert (heap g2 !! next g = Some session2) as E2 by apply lookup_insert_eq.
  rewrite (handleStdioMessage_matched stringify _ session2 message i res' g2 E2 Hi'
             (lookup_insert_eq _ _ _)).
  rewrite !decide_False by exact Hres. reflexivity.
Qed.

End RoundTrip.

(** ** The arguments of the backend command *)

(** [Array.prototype.join], against which the splitting is read. *)
Fixpoint join (sep : N) (l : list jsstring) : jsstring :=
  match l with
  | [] => []
  | [x] => x
  | x :: l' => x ++ sep :: join sep l'
  end.

Section JoinFacts.
Variable sep : N.

Lemma split_whole (s : jsstring) : sep ∉ s -> split sep s = [s].
Proof.
  induction s as [|c s IH]; [reflexivity|]. intros H.
  apply not_elem_of_cons in H as [Hc Hs]. simpl.
  destruct (N.eqb_spec c sep) as [E|_]; [congruence|]. rewrite IH by exact Hs.
  reflexivity.
Qed.

Lemma split_pieces (s : jsstring) : Forall (fun a => sep ∉ a) (split sep s).
Proof.
  induction s as [|c s IH]; simpl.
  - repeat constructor. apply not_elem_of_nil.
  - destruct (N.eqb_spec c sep) as [->|Hc].
    + constructor; [apply not_elem_of_nil|exact IH].
    + destruct (split sep s) as [|l ls]; [repeat constructor|].
      * rewrite not_elem_of_cons. split; [auto|apply not_elem_of_nil].
      * apply Forall_cons in IH as [Hl Hls]. constructor; [|exact Hls].
        rewrite not_elem_of_cons. auto.
Qed.

Lemma join_split (s : jsstring) : join sep (split sep s) = s.
Proof.
  induction s as [|c s IH]; [reflexivity|]. simpl.
  destruct (N.eqb_spec c sep) as [->|Hc].
  - destruct (split sep s) as [|l ls] eqn:E; [destruct (split_not_nil _ _ E)|].
    change (join sep ([] :: l :: ls)) with (sep :: join sep (l :: ls)).
    rewrite IH. reflexivity.
  - destruct (split sep s) as [|l ls] eqn:E; [destruct (split_not_nil _ _ E)|].
    rewrite <- IH. destruct ls; reflexivity.
Qed.

Lemma split_join (l : list jsstring) :
  l <> [] -> Forall (fun a => sep ∉ a) l -> split sep (join sep l) = l.
Proof.
  intros Hl H. induction H as [|x l Hx H IH]; [contradiction|].
  destruct l as [|y l]; [apply split_whole, Hx|].
  change (join sep (x :: y :: l)) with (x ++ sep :: join sep (y :: l)).
  rewrite split_line by exact Hx. rewrite IH by discriminate. reflexivity.
Qed.

End JoinFacts.

(** X19:  [MCP_ARGS], when set and not empty, is cut at every comma and
    nowhere else: the arguments are the one list of comma-free strings that,
    joined with commas, give the value of the variable.  No argument is
    trimmed or dropped, and none can hold a comma. *)
Theorem mcp_args_split (s : jsstring) :
  truthy s = true ->
  Forall (fun a => COMMA ∉ a) (mcp_args (Some s))
  /\ join COMMA (mcp_args (Some s)) = s
  /\ forall args,
       Forall (fun a => COMMA ∉ a) args -> join COMMA args = s ->
       mcp_args (Some s) = args.
Proof.
  intros Hs. unfold mcp_args. rewrite Hs.
  split; [apply split_pieces|]. split; [apply join_split|].
  intros args Hargs <-. apply split_join; [|exact Hargs].
  intros ->. discriminate Hs.
Qed.

(** * Scenarios

    Concrete runs of the gateway.  The serializer writes the fields of a
    message in the order of the interface; the parser of a scenario is the
    table of the lines its backend sends. *)

Module Scenario.

Definition QUOTE : N := 34%N.

(** A JSON text written with ['] for the double quote. *)
Definition text (s : string) : jsstring :=
  map (fun c => if (c =? 39)%N then QUOTE else c) (js s).

(** The bytes of such a text, all ASCII. *)
Definition utf8 (s : string) : list byte :=
  map (fun b => match b with x27 => x22 | _ => b end) (list_byte_of_string s).

(** A string literal: the quote and the backslash are escaped, and the
    strings of the scenarios hold no other character that needs it. *)
Definition quoted (s : jsstring) : jsstring :=
  [QUOTE]
  ++ flat_map (fun c => if ((c =? QUOTE) || (c =? 92))%N then [92%N; c] else [c]) s
  ++ [QUOTE].

Definition commas (l : list jsstring) : jsstring :=
  match l with
  | [] => []
  | x :: l' => x ++ flat_map (fun y => 44%N :: y) l'
  end.

(** [JSON.stringify] on a value. *)
Fixpoint render (j : json) : jsstring :=
  match j with
  | JNull => js "null"
  | JBool b => if b then js "true" else js "false"
  | JNum n => js (NilZero.string_of_int (Z.to_int n))
  | JStr s => quoted s
  | JArr items => js "[" ++ commas (map render items) ++ js "]"
  | JObj fields =>
      js "{"
      ++ commas (map (fun f => quoted (fst f) ++ js ":" ++ render (snd f)) fields)
      ++ js "}"
  end.

Definition json_of_id (i : RpcId) : json :=
  match i with IdStr s => JStr s | IdNum n => JNum n end.

Definition field {A} (name : string) (f : A -> json) (x : option A)
    : list (jsstring * json) :=
  match x with Some v => [(js name, f v)] | None => [] end.

Definition json_of_message (m : JSONRPCMessage) : json :=
  JObj ([(js "jsonrpc", JStr (js "2.0"))]
        ++ field "id" json_of_id (id m) ++ field "method" JStr (method m)
        ++ field "params" (fun x => x) (params m)
        ++ field "result" (fun x => x) (result m)
        ++ field "error" (fun x => x) (error m)).

(** [JSON.stringify] on a message. *)
Definition stringify (m : JSONRPCMessage) : jsstring :=
  render (json_of_message m).

(** The parser that knows the lines of [table] and rejects the others. *)
Definition reads (table : list (jsstring * JSONRPCMessage)) (line : jsstring)
    : option JSONRPCMessage :=
  snd <$> List.find (fun entry => bool_decide (fst entry = line)) table.

Definition request (i : Z) (name : string) : JSONRPCMessage :=
  {| id := Some (IdNum i); method := Some (js name); params := None;
     result := None; error := None |}.

Definition notification (name : string) : JSONRPCMessage :=
  {| id := None; method := Some (js name); params := None; result := None;
     error := None |}.

(** A POST that names no session. *)
Definition post (message : JSONRPCMessage) : Request :=
  {| query_sessionId := None; header_sessionId := None;
     body_sessionId := None; body := message |}.

(** A GET that names no session; [handleSSE] does not read the body. *)
Definition get : Request := post (notification "").

Example stringify_timeout :
  stringify (timeout_response (IdNum 1))
  = text "{'jsonrpc':'2.0','id':1,'error':{'code':-32603,'message':'Request timeout'}}".
Proof. vm_compute. reflexivity. Qed.

Example default_session :
  messageSessionId (post (request 1 "tools/list")) = js "default-session".
Proof. reflexivity. Qed.

(** *** The backend answers [tools/list] with an empty list *)

Definition tools_reply : JSONRPCMessage :=
  result_envelope (IdNum 1) (JObj [(js "tools", JArr [])]).

Definition tools_line : string := "{'jsonrpc':'2.0','id':1,'result':{'tools':[]}}".

Definition tools_parse : jsstring -> option JSONRPCMessage :=
  reads [(text tools_line, tools_reply)].

Definition tools_list : Event := POST (post (request 1 "tools/list")) 1 true.

Example reply_within_window :
  snd (run tools_parse stringify
         [tools_list; StdoutData 0 (utf8 tools_line ++ [x0a]); TimerFires 1]
         new_gateway)
  = [Spawn 0;
     StdinWrite 0 (text "{'jsonrpc':'2.0','id':1,'method':'tools/list'}" ++ [LF]);
     SetTimeout 1 30000;
     Resolve 1 tools_reply;
     HttpReply 1 200 (JsonRpc tools_reply)].
Proof. vm_compute. reflexivity. Qed.

Example no_reply :
  snd (run tools_parse stringify [tools_list; TimerFires 1] new_gateway)
  = [Spawn 0;
     StdinWrite 0 (text "{'jsonrpc':'2.0','id':1,'method':'tools/list'}" ++ [LF]);
     SetTimeout 1 30000;
     Resolve 1 (timeout_response (IdNum 1));
     HttpReply 1 200 (JsonRpc (timeout_response (IdNum 1)))].
Proof. vm_compute. reflexivity. Qed.

(** *** Two requests in flight under one id *)

Definition tools_list_again : Event := POST (post (request 1 "tools/list")) 2 true.

Definition idle_session : Session :=
  {| session_id := defaultSessionId; process := 0; messageBuffer := [];
     sseResponse := None; pendingRequests := ∅; connected := true |}.

(** C1: two POSTs to the default session carry the id 1 while both are in
    flight.  The second registration replaces the resolver of the first; the
    reply of the backend answers the second request and removes the entry,
    and both timers then find no entry.  After the reply and both timeouts
    the first request has had neither a reply nor the timeout error, no
    timer is left, the pending table is empty, and whatever happens next its
    response is never answered. *)
Theorem duplicate_id_request_never_answered :
  let out :=
    run tools_parse stringify
      [tools_list; tools_list_again;
       StdoutData 0 (utf8 tools_line ++ [x0a]);
       TimerFires 1; TimerFires 2] new_gateway in
  snd out
  = [Spawn 0;
     StdinWrite 0 (stringify (request 1 "tools/list") ++ [LF]);
     SetTimeout 1 30000;
     StdinWrite 0 (stringify (request 1 "tools/list") ++ [LF]);
     SetTimeout 2 30000;
     Resolve 2 tools_reply;
     HttpReply 2 200 (JsonRpc tools_reply)]
  /\ timers (fst out) = ∅
  /\ heap (fst out) = {[ 0%nat := idle_session ]}
  /\ (forall evs,
        Forall (elsewhere 1) evs ->
        Forall (silent 1) (snd (run tools_parse stringify evs (fst out)))).
Proof.
  cbv zeta.
  assert (timers (fst (run tools_parse stringify
            [tools_list; tools_list_again;
             StdoutData 0 (utf8 tools_line ++ [x0a]);
             TimerFires 1; TimerFires 2] new_gateway)) = ∅) as Ht
    by (vm_compute; reflexivity).
  assert (heap (fst (run tools_parse stringify
            [tools_list; tools_list_again;
             StdoutData 0 (utf8 tools_line ++ [x0a]);
             TimerFires 1; TimerFires 2] new_gateway)) = {[ 0%nat := idle_session ]})
    as Hh by (vm_compute; reflexivity).
  split; [vm_compute; reflexivity|]. split; [exact Ht|]. split; [exact Hh|].
  intros evs Hevs. apply unreferenced_forever; [|exact Hevs]. split.
  - intros s session Hs i. rewrite Hh in Hs.
    apply lookup_singleton_Some in Hs as [_ <-]. cbn. rewrite lookup_empty.
    discriminate.
  - intros t tm Htm. rewrite Ht, lookup_empty in Htm. discriminate.
Qed.

(** The same id used again after the reply: the timer of the first request
    finds the entry of the second, removes it and calls its own resolver a
    second time; the second request is then never answered. *)
Example reused_id_evicted_by_old_timer :
  snd (run tools_parse stringify
         [tools_list; StdoutData 0 (utf8 tools_line ++ [x0a]);
          tools_list_again; TimerFires 1;
          StdoutData 0 (utf8 tools_line ++ [x0a]); TimerFires 2] new_gateway)
  = [Spawn 0;
     StdinWrite 0 (stringify (request 1 "tools/list") ++ [LF]);
     SetTimeout 1 30000;
     Resolve 1 tools_reply;
     HttpReply 1 200 (JsonRpc tools_reply);
     StdinWrite 0 (stringify (request 1 "tools/list") ++ [LF]);
     SetTimeout 2 30000;
     Resolve 1 (timeout_response (IdNum 1))].
Proof. vm_compute. reflexivity. Qed.

(** A chunk boundary inside the document, between two characters. *)
Example chunks_between_characters :
  run tools_parse stringify
    [tools_list;
     StdoutData 0 (utf8 "{'jsonrpc':'2.0','id':1,'res");
     StdoutData 0 (utf8 "ult':{'tools':[]}}" ++ [x0a])] new_gateway
  = run tools_parse stringify
      [tools_list; StdoutData 0 (utf8 tools_line ++ [x0a])] new_gateway.
Proof. vm_compute. reflexivity. Qed.

(** *** A reply with a two-byte character, delivered in two chunks *)

Definition cafe (name : jsstring) : JSONRPCMessage :=
  result_envelope (IdNum 1) (JStr name).

(** The reply [{..."result":"é"}]: é is U+00E9, in UTF-8 the bytes C3 A9. *)
Definition cafe_head : string := "{'jsonrpc':'2.0','id':1,'result':'".
Definition cafe_tail : string := "'}".

Definition chunk1 : list byte := utf8 cafe_head ++ [xc3].
Definition chunk2 : list byte := [xa9] ++ utf8 cafe_tail ++ [x0a].

(** [JSON.parse] on the two lines that reach it. *)
Definition cafe_parse : jsstring -> option JSONRPCMessage :=
  reads [(text cafe_head ++ [233%N] ++ text cafe_tail, cafe [233%N]);
         (text cafe_head ++ [REPLACEMENT; REPLACEMENT] ++ text cafe_tail,
          cafe [REPLACEMENT; REPLACEMENT])].

Definition tools_call : Event := POST (post (request 1 "tools/call")) 1 true.

(** C2: the backend sends one newline-terminated document whose text has a
    character of two bytes.  Delivered in one chunk, the document is
    dispatched as sent.  Delivered in two chunks that split the character,
    each chunk is decoded on its own, both halves become U+FFFD, and the
    document that is dispatched, and that answers the request, is another
    one. *)
Theorem chunk_boundary_inside_character :
  toString (chunk1 ++ chunk2)
  = text cafe_head ++ [233%N] ++ text cafe_tail ++ [LF]
  /\ snd (run cafe_parse stringify
            [tools_call; StdoutData 0 (chunk1 ++ chunk2)] new_gateway)
     = [Spawn 0;
        StdinWrite 0 (stringify (request 1 "tools/call") ++ [LF]);
        SetTimeout 1 30000;
        Resolve 1 (cafe [233%N]);
        HttpReply 1 200 (JsonRpc (cafe [233%N]))]
  /\ snd (run cafe_parse stringify
            [tools_call; StdoutData 0 chunk1; StdoutData 0 chunk2] new_gateway)
     = [Spawn 0;
        StdinWrite 0 (stringify (request 1 "tools/call") ++ [LF]);
        SetTimeout 1 30000;
        Resolve 1 (cafe [REPLACEMENT; REPLACEMENT]);
        HttpReply 1 200 (JsonRpc (cafe [REPLACEMENT; REPLACEMENT]))]
  /\ cafe [233%N] <> cafe [REPLACEMENT; REPLACEMENT].
Proof.
  split; [vm_compute; reflexivity|]. split; [vm_compute; reflexivity|].
  split; [vm_compute; reflexivity|]. discriminate.
Qed.

(** *** A backend command that is not found *)

(** [spawn] returns a process, which then emits 'error'. *)
Definition stale : Gateway :=
  fst (run tools_parse stringify [tools_list; ProcessError 0] new_gateway).

(** C3 (counterexample): the first POST of a gateway whose backend command
    is not found.  The creation of the session succeeds: the request is
    written to the process and its timer is set, no reply is written, and
    so no HTTP 500; after the 'error' event the lookup of the id finds the
    session, marked disconnected; what the caller gets in the end is the
    timeout error, with status 200. *)
Lemma missing_command_sends_no_500 :
  snd (run tools_parse stringify [tools_list; ProcessError 0] new_gateway)
  = [Spawn 0;
     StdinWrite 0 (text "{'jsonrpc':'2.0','id':1,'method':'tools/list'}" ++ [LF]);
     SetTimeout 1 30000]
  /\ sessions stale !! js "default-session" = Some 0%nat
  /\ connected <$> heap stale !! 0%nat = Some false
  /\ snd (onTimeout 1 stale)
     = [Resolve 1 (timeout_response (IdNum 1));
        HttpReply 1 200 (JsonRpc (timeout_response (IdNum 1)))].
Proof. vm_compute. auto. Qed.

(** When [spawn] throws, a GET is answered with a body that is not a
    JSON-RPC envelope. *)
Example sse_creation_failure :
  handleSSE get 1 false new_gateway
  = (new_gateway,
     [HttpReply 1 500 (ErrorObject (js "Failed to create session"))]).
Proof. reflexivity. Qed.

(** The first POST of a gateway: [spawn] throws, and the answer is the HTTP
    500; [spawn] returns and the process emits 'error', and the session is
    stored and disconnected. *)
Lemma spawn_failure_by_throw_or_error_event_witness :
  handleMessage stringify (post (request 1 "tools/list")) 1 false new_gateway
  = (new_gateway, [HttpReply 1 500 creation_failed])
  /\ sessions stale !! js "default-session" = Some 0%nat
  /\ connected_session (js "default-session") stale = None
  /\ snd (onTimeout 1 stale)
     = [Resolve 1 (timeout_response (IdNum 1));
        HttpReply 1 200 (JsonRpc (timeout_response (IdNum 1)))].
Proof.
  pose proof (spawn_failure_by_throw_or_error_event stringify
                (post (request 1 "tools/list")) 1 new_gateway eq_refl)
    as (H1 & _ & _ & H2 & _).
  cbv zeta in H2. destruct H2 as (_ & _ & H3 & _ & H4 & H5).
  split; [exact H1|]. split; [exact H3|]. split; [exact H4|].
  apply (H5 (IdNum 1)).
  - reflexivity.
  - intros [H|H]; discriminate H.
  - apply not_elem_of_empty.
Defined.

(** *** Messages posted when no session can be created *)

(** C5 (counterexample): no session is stored and [spawn] throws; the
    request for [logging/setLevel] is answered with the HTTP 500, not with
    the empty result. *)
Lemma setLevel_refused_without_session :
  id (request 1 "logging/setLevel") = Some (IdNum 1)
  /\ handleMessage stringify (post (request 1 "logging/setLevel")) 1 false
       new_gateway
     = (new_gateway, [HttpReply 1 500 creation_failed]).
Proof. split; reflexivity. Qed.

(** The same request once the process can be spawned. *)
Lemma interception_after_session_witness :
  handleMessage stringify (post (request 1 "logging/setLevel")) 1 true
    new_gateway
  = (created (js "default-session") new_gateway,
     [Spawn 0; HttpReply 1 200 (JsonRpc (result_envelope (IdNum 1) (JObj [])))]).
Proof.
  apply (interception_after_session stringify
           (post (request 1 "logging/setLevel")) 1 true (IdNum 1) new_gateway).
  - reflexivity.
  - left. reflexivity.
Defined.

(** C6 (counterexample): no session is stored and [spawn] throws; the
    notification is answered with the HTTP 500, not with 202, and is not
    written to any process. *)
Lemma notification_refused_without_session :
  id (notification "notifications/initialized") = None
  /\ handleMessage stringify (post (notification "notifications/initialized")) 1
       false new_gateway
     = (new_gateway, [HttpReply 1 500 creation_failed]).
Proof. split; reflexivity. Qed.

(** The same notification once the process can be spawned. *)
Lemma notification_after_session_witness :
  handleMessage stringify (post (notification "notifications/initialized")) 1
    true new_gateway
  = (created (js "default-session") new_gateway,
     [Spawn 0;
      StdinWrite 0
        (text "{'jsonrpc':'2.0','method':'notifications/initialized'}" ++ [LF]);
      HttpReply 1 202 EmptyObject]).
Proof.
  apply (notification_after_session stringify
           (post (notification "notifications/initialized")) 1 true new_gateway).
  reflexivity.
Defined.

(** *** A session with a stream and a request in flight *)

Definition streaming : Gateway :=
  fst (run tools_parse stringify [GET get 5 true; tools_list] new_gateway).

Definition streaming_session : Session :=
  {| session_id := defaultSessionId; process := 0; messageBuffer := [];
     sseResponse := Some 5%nat; pendingRequests := {[ IdNum 1 := 1%nat ]};
     connected := true |}.

Lemma streaming_heap : heap streaming !! 0%nat = Some streaming_session.
Proof. vm_compute. reflexivity. Qed.

(** The reply to the request in flight answers it and is pushed to the
    stream as well. *)
Lemma dispatch_paths_independent_witness :
  snd (handleStdioMessage stringify 0 tools_reply streaming)
  = [Resolve 1 tools_reply;
     HttpReply 1 200 (JsonRpc tools_reply);
     SseWrite 5 (text "data: {'jsonrpc':'2.0','id':1,'result':{'tools':[]}}"
                 ++ [LF; LF])].
Proof.
  pose proof (dispatch_paths_independent stringify 0 streaming_session
                tools_reply streaming streaming_heap) as (H & _).
  apply (H (IdNum 1) 1%nat).
  - reflexivity.
  - vm_compute. reflexivity.
Defined.

(** A second GET replaces the stream 5 by 6; the close of 5 then changes
    nothing. *)
Lemma new_sink_replaces_old_witness :
  onClose 5 (fst (handleSSE get 6 true streaming))
  = (fst (handleSSE get 6 true streaming), []).
Proof.
  apply (new_sink_replaces_old stringify get 6 5 true 0 streaming_session
           streaming).
  - vm_compute. reflexivity.
  - exact streaming_heap.
  - reflexivity.
  - vm_compute. reflexivity.
  - discriminate.
Defined.

(** The process exits with the request in flight: the session is marked
    disconnected, and the request is answered by its timer, or by the reply
    when the reply is read first. *)
Lemma exit_leaves_pending_requests_witness :
  snd (onExit 0 streaming) = []
  /\ connected <$> heap (fst (onExit 0 streaming)) !! 0%nat = Some false
  /\ snd (onTimeout 1 (fst (onExit 0 streaming)))
     = [Resolve 1 (timeout_response (IdNum 1));
        HttpReply 1 200 (JsonRpc (timeout_response (IdNum 1)))]
  /\ snd (handleStdioMessage stringify 0 tools_reply (fst (onExit 0 streaming)))
     = Resolve 1 tools_reply :: HttpReply 1 200 (JsonRpc tools_reply)
         :: pushed stringify streaming_session tools_reply.
Proof.
  pose proof (exit_leaves_pending_requests stringify 0 streaming_session
                streaming streaming_heap)
    as (H1 & _ & _ & _ & _ & _ & _ & H2 & H3 & _ & _ & H4).
  split; [exact H1|]. split; [exact H3|]. split.
  - apply (H2 1%nat (IdNum 1) 1%nat).
    + vm_compute. reflexivity.
    + vm_compute. reflexivity.
    + vm_compute. intros H. discriminate H.
  - apply (H4 tools_reply (IdNum 1) 1%nat).
    + reflexivity.
    + vm_compute. reflexivity.
    + vm_compute. intros H. discriminate H.
Defined.

(** C8 (counterexample): the process exits with the request in flight, and
    its reply is read from stdout after the exit.  The reply answers the
    request and is written to the stream; the timer of the request then
    fires and answers nothing. *)
Lemma reply_after_exit_answers_request :
  snd (run tools_parse stringify
         [ProcessExit 0; StdoutData 0 (utf8 tools_line ++ [x0a]); TimerFires 1]
         streaming)
  = [Resolve 1 tools_reply;
     HttpReply 1 200 (JsonRpc tools_reply);
     SseWrite 5 (text "data: {'jsonrpc':'2.0','id':1,'result':{'tools':[]}}"
                 ++ [LF; LF])]
  /\ sessions (fst (run tools_parse stringify [ProcessExit 0] streaming))
       !! js "default-session" = None.
Proof. vm_compute. auto. Qed.


(** After the 'error' event the session reads disconnected and a POST would
    not use it; a GET attaches to it, even though [spawn] would throw. *)
Lemma error_keeps_session_stored_witness :
  sessions (fst (onError 0 streaming)) = sessions streaming
  /\ sessions (fst (handleSSE get 6 false (fst (onError 0 streaming))))
     = sessions streaming
  /\ snd (handleSSE get 6 false (fst (onError 0 streaming)))
     = sse_headers 6 ++ [SseWrite 6 (js ":ok" ++ [LF; LF])]
  /\ connected <$> heap (fst (onError 0 streaming)) !! 0%nat = Some false
  /\ connected_session defaultSessionId (fst (onError 0 streaming)) = None.
Proof.
  pose proof (error_keeps_session_stored tools_parse stringify get 6 false 0
                streaming_session streaming streaming_heap) as H.
  destruct H as (_ & _ & H1 & H2 & _ & H3 & _ & _ & _ & H4 & H5 & _).
  - vm_compute. reflexivity.
  - reflexivity.
  - auto.
Defined.

(** *** Runs and their effects *)

(** The reply of the backend answers the request posted on the response 1. *)
Lemma replies_answer_requests_witness :
  answers [tools_list; StdoutData 0 (utf8 tools_line ++ [x0a])]
    1 200 (JsonRpc tools_reply).
Proof.
  apply (replies_answer_requests tools_parse stringify
           [tools_list; StdoutData 0 (utf8 tools_line ++ [x0a])]
           1 200 (JsonRpc tools_reply)).
  vm_compute. do 4 right. left. reflexivity.
Defined.

(** The reply is written as one event to the stream opened by the GET. *)
Lemma stream_carries_events_witness :
  In 5%nat (streams [GET get 5 true; tools_list;
                     StdoutData 0 (utf8 tools_line ++ [x0a])])
  /\ (sse_frame stringify tools_reply = js ":ok" ++ [LF; LF]
      \/ exists message,
           sse_frame stringify tools_reply
           = js "data: " ++ stringify message ++ [LF; LF]).
Proof.
  apply (stream_carries_events tools_parse stringify
           [GET get 5 true; tools_list; StdoutData 0 (utf8 tools_line ++ [x0a])]
           5 (sse_frame stringify tools_reply)).
  vm_compute. do 10 right. left. reflexivity.
Defined.

(** The posted request is what the process reads. *)
Lemma backend_reads_posted_messages_witness :
  exists k req,
    posted [tools_list] k req
    /\ stringify (request 1 "tools/list") ++ [LF] = stringify (body req) ++ [LF]
    /\ (id (body req) = None \/ ~ intercepted (body req)).
Proof.
  apply (backend_reads_posted_messages tools_parse stringify [tools_list] 0).
  vm_compute. right. left. reflexivity.
Defined.

(** The request in flight has its timer. *)
Lemma pending_requests_are_timed_witness :
  requested [GET get 5 true; tools_list] 1 (IdNum 1)
  /\ exists t,
       timers streaming !! t
       = Some {| t_session := 0; t_id := IdNum 1; t_resolve := 1;
                 t_delay := 30000 |}.
Proof.
  apply (pending_requests_are_timed tools_parse stringify
           [GET get 5 true; tools_list] 0 streaming_session (IdNum 1) 1).
  - exact streaming_heap.
  - vm_compute. reflexivity.
Defined.

Lemma stored_sessions_exist_witness :
  truthy defaultSessionId = true
  /\ exists session,
       heap streaming !! 0%nat = Some session
       /\ session_id session = defaultSessionId.
Proof.
  apply (stored_sessions_exist tools_parse stringify
           [GET get 5 true; tools_list] defaultSessionId 0).
  vm_compute. reflexivity.
Defined.

(** The stream 5 is closed; a second stream is opened and the reply of the
    backend arrives: nothing is written to 5. *)
Lemma no_write_after_close_witness :
  sse_writes 5
    (snd (run tools_parse stringify
            [GET get 6 true; StdoutData 0 (utf8 tools_line ++ [x0a])]
            (fst (run tools_parse stringify
                    ([GET get 5 true; tools_list] ++ [RequestClose 5])
                    new_gateway))))
  = [].
Proof.
  apply (no_write_after_close tools_parse stringify
           [GET get 5 true; tools_list] 5
           [GET get 6 true; StdoutData 0 (utf8 tools_line ++ [x0a])]).
  - apply NoDup_singleton.
  - cbn. intros [H|[]]. discriminate H.
Defined.

(** *** A session replaced after an 'error' event *)




(** The process 0 reports an error, the next POST replaces the session by
    the session object 2, and then the process 0 exits. *)
Definition replaced : Gateway :=
  fst (run tools_parse stringify [tools_list; ProcessError 0; tools_list_again]
         new_gateway).

Definition old_session : Session :=
  {| session_id := defaultSessionId; process := 0; messageBuffer := [];
     sseResponse := None; pendingRequests := {[ IdNum 1 := 1%nat ]};
     connected := false |}.

Definition new_session : Session :=
  {| session_id := defaultSessionId; process := 2; messageBuffer := [];
     sseResponse := None; pendingRequests := {[ IdNum 1 := 2%nat ]};
     connected := true |}.

Lemma exit_of_replaced_process_witness :
  connected_session defaultSessionId replaced = Some 2%nat
  /\ sessions (fst (onExit 0 replaced)) !! defaultSessionId = None
  /\ heap (fst (onExit 0 replaced)) !! 2%nat = Some new_session
  /\ connected_session defaultSessionId (fst (onExit 0 replaced)) = None.
Proof.
  pose proof (exit_of_replaced_process stringify 0 2 old_session new_session
                (post (request 2 "tools/list")) 3 replaced) as H.
  destruct H as (H1 & H2 & H3 & _ & H4 & _).
  - exact (proj1 (run_Inv tools_parse stringify
                    [tools_list; ProcessError 0; tools_list_again])).
  - vm_compute. reflexivity.
  - vm_compute. reflexivity.
  - vm_compute. reflexivity.
  - discriminate.
  - reflexivity.
  - reflexivity.
  - auto.
Defined.

(** The reply and the timer of the request in flight, in both orders. *)
Lemma reply_and_timeout_race_witness :
  snd ((handleStdioMessage stringify 0 tools_reply ;; onTimeout 1) streaming)
  = Resolve 1 tools_reply :: HttpReply 1 200 (JsonRpc tools_reply)
      :: pushed stringify streaming_session tools_reply
  /\ snd ((onTimeout 1 ;; handleStdioMessage stringify 0 tools_reply) streaming)
     = Resolve 1 (timeout_response (IdNum 1))
         :: HttpReply 1 200 (JsonRpc (timeout_response (IdNum 1)))
         :: pushed stringify streaming_session tools_reply.
Proof.
  apply (reply_and_timeout_race stringify 0 streaming_session tools_reply
           (IdNum 1) 1 1 streaming).
  - exact streaming_heap.
  - reflexivity.
  - vm_compute. reflexivity.
  - vm_compute. intros H. discriminate H.
  - vm_compute. reflexivity.
Defined.

(** *** The command line of a Java backend *)

Lemma mcp_args_split_witness :
  mcp_args (Some (js "-jar,server.jar,--port 8080"))
  = [js "-jar"; js "server.jar"; js "--port 8080"].
Proof.
  apply (mcp_args_split (js "-jar,server.jar,--port 8080")).
  - reflexivity.
  - apply (bool_decide_unpack _). vm_compute. exact I.
  - reflexivity.
Defined.

(** *** Lines of the backend *)

(** The reply arrives in two chunks cut between two characters. *)
Lemma feed_stream_witness :
  run tools_parse stringify
    (map (StdoutData 0)
       ([utf8 "{'jsonrpc':'2.0','id':1,'res"]
        ++ [utf8 "ult':{'tools':[]}}" ++ [x0a]])) streaming
  = (with_buffer 0 []
       (fst (for_of [tools_reply] (handleStdioMessage stringify 0) streaming)),
     snd (for_of [tools_reply] (handleStdioMessage stringify 0) streaming)).
Proof.
  apply (feed_stream tools_parse stringify 0
           [utf8 "{'jsonrpc':'2.0','id':1,'res"]
           (utf8 "ult':{'tools':[]}}" ++ [x0a])
           streaming streaming_session [text tools_line] [tools_reply]).
  - exact streaming_heap.
  - reflexivity.
  - constructor; [vm_compute; reflexivity|constructor].
  - vm_compute. reflexivity.
  - apply (bool_decide_unpack _). vm_compute. exact I.
  - constructor; [split; vm_compute; reflexivity|constructor].
Defined.

(** A line of log output between two replies is skipped. *)
Lemma parse_failure_dropped_witness :
  for_of ([text tools_line] ++ js "Server started" :: [text tools_line])
    (handleLine tools_parse stringify 0) streaming
  = for_of ([text tools_line] ++ [text tools_line])
      (handleLine tools_parse stringify 0) streaming.
Proof.
  apply (parse_failure_dropped tools_parse stringify 0 [text tools_line]
           (js "Server started") [text tools_line] streaming).
  vm_compute. reflexivity.
Defined.

(** The reply, the timer and the exit of the process after the POST of the
    request answered on the response 1. *)
Lemma answered_at_most_once_witness :
  (replies 1
     (snd (run tools_parse stringify
             [StdoutData 0 (utf8 tools_line ++ [x0a]); TimerFires 1;
              StdoutData 0 (utf8 tools_line ++ [x0a]); ProcessExit 0]
             streaming)) <= 1)%nat.
Proof.
  apply (answered_at_most_once tools_parse stringify 1
           [StdoutData 0 (utf8 tools_line ++ [x0a]); TimerFires 1;
            StdoutData 0 (utf8 tools_line ++ [x0a]); ProcessExit 0]
           streaming).
  repeat constructor.
Defined.

(** *** A GET, a POST and the reply on a new gateway *)

Lemma request_round_trip_witness :
  snd ((handleSSE get 5 true ;;
        handleMessage stringify (post (request 1 "tools/list")) 1 true ;;
        handleStdioMessage stringify 0 tools_reply) new_gateway)
  = Spawn 0
      :: sse_headers 5
      ++ [SseWrite 5 (js ":ok" ++ [LF; LF]);
          StdinWrite 0 (stringify (request 1 "tools/list") ++ [LF]);
          SetTimeout 1 30000;
          Resolve 1 tools_reply;
          HttpReply 1 200 (JsonRpc tools_reply);
          SseWrite 5 (sse_frame stringify tools_reply)].
Proof.
  apply (request_round_trip stringify get 5 (post (request 1 "tools/list")) 1
           true (IdNum 1) tools_reply new_gateway).
  - reflexivity.
  - reflexivity.
  - reflexivity.
  - intros [H|H]; discriminate H.
  - reflexivity.
  - apply not_elem_of_empty.
Defined.

(** *** Half a line in the buffer *)

Definition half_line : Session :=
  {| session_id := defaultSessionId; process := 0;
     messageBuffer := text "{'jsonrpc':'2.0','id':1,'res";
     sseResponse := None; pendingRequests := {[ IdNum 1 := 1%nat ]};
     connected := true |}.

Lemma buffers_hold_fragments_witness : fragment half_line.
Proof.
  apply (buffers_hold_fragments tools_parse stringify
           [tools_list; StdoutData 0 (utf8 "{'jsonrpc':'2.0','id':1,'res")]
           0%nat half_line).
  vm_compute. reflexivity.
Defined.

End Scenario.
